(** * perplexcity-mcp: the tool server of [server.js]

    A shallow embedding of [src/server.js]: the stateless reference codec
    ([b64enc] / [b64dec]), the answer gateway ([askPerplexity]) and the three
    tools ([answer], [search], [fetch]) with their input schemas.

    JavaScript strings are sequences of UTF-16 code units; they are modelled
    as [list Z], each unit in [0, 0xFFFF].  Node's [Buffer] is a sequence of
    bytes, modelled as [list Z], each byte in [0, 0xFF].  The outbound HTTP
    call is the only effect the claims speak about: it is threaded through a
    small monad [Net] that records every request that is sent and asks an
    oracle for the reply. *)

From Stdlib Require Import ZArith List String Ascii Bool Lia DecimalString.
Import ListNotations.
Open Scope Z_scope.

(* ===================================================================== *)
(** ** JavaScript strings *)
(* ===================================================================== *)

Module JS.

(** A string value: its UTF-16 code units. *)
Definition jsstring := list Z.

(** An ASCII literal of the source as code units. *)
Fixpoint str (s : string) : jsstring :=
  match s with
  | EmptyString => []
  | String a s' => Z.of_nat (nat_of_ascii a) :: str s'
  end.

Definition code_unit (c : Z) : Prop := 0 <= c <= 0xFFFF.

Definition is_high_surrogate (c : Z) : bool := (0xD800 <=? c) && (c <=? 0xDBFF).
Definition is_low_surrogate (c : Z) : bool := (0xDC00 <=? c) && (c <=? 0xDFFF).

(** A well-formed string: every unit is 16 bits wide and every surrogate is
    half of a pair.  These are exactly the strings that have a UTF-8 form. *)
Fixpoint well_formed (s : jsstring) : Prop :=
  match s with
  | [] => True
  | c :: s' =>
      code_unit c /\
      if is_high_surrogate c then
        match s' with
        | d :: s'' => is_low_surrogate d = true /\ well_formed s''
        | [] => False
        end
      else is_low_surrogate c = false /\ well_formed s'
  end.

(** A Unicode scalar value: a code point that is not a surrogate. *)
Definition scalar_value (cp : Z) : Prop :=
  0 <= cp <= 0x10FFFF /\ ~ (0xD800 <= cp <= 0xDFFF).

Definition eqb_str (a b : jsstring) : bool :=
  if list_eq_dec Z.eq_dec a b then true else false.

(** The decimal digits of an integer, with its sign. *)
Definition decimal (n : Z) : jsstring := str (NilZero.string_of_int (Z.to_int n)).

(** The Number value for a non-negative integer: the nearest double, ties
    to the even significand. *)
Definition to_double (z : Z) : Z :=
  let bits := Z.log2 z + 1 in
  if bits <=? 53 then z
  else
    let e := bits - 53 in
    let q := Z.shiftr z e in
    let r := z - Z.shiftl q e in
    let half := Z.shiftl 1 (e - 1) in
    Z.shiftl (if (half <? r) || ((r =? half) && Z.odd q) then q + 1 else q) e.

(** A candidate [s * 10^(n-k)] with the [k] digits [s]: its distance to
    [x], if it is written with [k] digits and its Number value is [x]. *)
Definition candidate (x k n s : Z) : option (Z * Z * Z) :=
  let p := 10 ^ (n - k) in
  if (k <=? n) && (10 ^ (k - 1) <=? s) && (s <? 10 ^ k) && (to_double (s * p) =? x)
  then Some (s, n, Z.abs (s * p - x))
  else None.

(** The closer of two candidates; of two equally close ones the even. *)
Definition closer (a b : option (Z * Z * Z)) : option (Z * Z * Z) :=
  match a, b with
  | Some (s, n, d), Some (s', n', d') =>
      if d <? d' then a
      else if d' <? d then b
      else if Z.even s then a else b
  | Some _, None => a
  | None, _ => b
  end.

Definition candidates (x digits k : Z) : option (Z * Z * Z) :=
  let at_ n := closer (candidate x k n (x / 10 ^ (n - k)))
                      (candidate x k n (x / 10 ^ (n - k) + 1)) in
  closer (at_ digits) (at_ (digits + 1)).

(** The least number of digits [k] that writes [x], with the digits [s]
    and the position [n] of the decimal point. *)
Fixpoint shortest (fuel : nat) (x digits k : Z) : Z * Z * Z :=
  match fuel with
  | O => (x, digits, digits)
  | S fuel' =>
      match candidates x digits k with
      | Some (s, n, _) => (s, k, n)
      | None => shortest fuel' x digits (k + 1)
      end
  end.

(** The digits, then zeros up to the decimal point; from 22 digits on, the
    exponent form. *)
Definition render (s k n : Z) : jsstring :=
  if n <=? 21 then decimal s ++ repeat 48 (Z.to_nat (n - k))
  else
    match decimal s with
    | [] => []
    | [d] => [d] ++ str "e+" ++ decimal (n - 1)
    | d :: ds => [d] ++ str "." ++ ds ++ str "e+" ++ decimal (n - 1)
    end.

Definition positive_toString (z : Z) : jsstring :=
  let x := to_double z in
  if 2 ^ 1024 <=? x then str "Infinity"
  else if x <=? 2 ^ 53 then decimal x
  else
    let digits := Z.of_nat (List.length (decimal x)) in
    let '(s, k, n) := shortest 17 x digits 1 in
    render s k n.

(** [`${n}`] for an integral number [n]: the shortest digits that read back
    as the same Number; all its digits up to 2^53, zeros after the
    seventeenth digit at most, and the exponent form from 1e21 on. *)
Definition Number_toString (n : Z) : jsstring :=
  if n <? 0 then str "-" ++ positive_toString (- n) else positive_toString n.

(** Truthiness of an optional string ([undefined] and [""] are falsy). *)
Definition truthy_str (s : option jsstring) : bool :=
  match s with
  | Some (_ :: _) => true
  | _ => false
  end.

(** Truthiness of an optional integral number ([undefined] and [0] are falsy). *)
Definition truthy_num (n : option Z) : bool :=
  match n with
  | Some v => negb (v =? 0)
  | None => false
  end.

End JS.
Import JS.

(* ===================================================================== *)
(** ** Buffer: UTF-8 and base64url *)
(* ===================================================================== *)

Module Buffer.

Definition byte (b : Z) : Prop := 0 <= b <= 0xFF.

(** U+FFFD, the replacement character, and its UTF-8 form. *)
Definition REPLACEMENT : Z := 0xFFFD.
Definition REPLACEMENT_utf8 : list Z := [0xEF; 0xBF; 0xBD].

(** The code point of a surrogate pair. *)
Definition pair_code_point (hi lo : Z) : Z :=
  0x10000 + Z.lor (Z.shiftl (hi - 0xD800) 10) (lo - 0xDC00).

(** The UTF-8 bytes of one code point. *)
Definition utf8_bytes (cp : Z) : list Z :=
  if cp <? 0x80 then [cp]
  else if cp <? 0x800 then
    [Z.lor 0xC0 (Z.shiftr cp 6); Z.lor 0x80 (Z.land cp 0x3F)]
  else if cp <? 0x10000 then
    [Z.lor 0xE0 (Z.shiftr cp 12);
     Z.lor 0x80 (Z.land (Z.shiftr cp 6) 0x3F);
     Z.lor 0x80 (Z.land cp 0x3F)]
  else
    [Z.lor 0xF0 (Z.shiftr cp 18);
     Z.lor 0x80 (Z.land (Z.shiftr cp 12) 0x3F);
     Z.lor 0x80 (Z.land (Z.shiftr cp 6) 0x3F);
     Z.lor 0x80 (Z.land cp 0x3F)].

(** [Buffer.from(s, "utf8")]: a surrogate pair becomes four bytes, a lone
    surrogate becomes the bytes of U+FFFD. *)
Fixpoint from_utf8 (s : jsstring) : list Z :=
  match s with
  | [] => []
  | c :: s' =>
      if is_high_surrogate c then
        match s' with
        | d :: s'' =>
            if is_low_surrogate d
            then utf8_bytes (pair_code_point c d) ++ from_utf8 s''
            else REPLACEMENT_utf8 ++ from_utf8 s'
        | [] => REPLACEMENT_utf8
        end
      else if is_low_surrogate c then REPLACEMENT_utf8 ++ from_utf8 s'
      else utf8_bytes c ++ from_utf8 s'
  end.

(** The code units of one decoded code point. *)
Definition code_units (cp : Z) : jsstring :=
  if cp <? 0x10000 then [cp]
  else [0xD800 + Z.shiftr (cp - 0x10000) 10;
        0xDC00 + Z.land (cp - 0x10000) 0x3FF].

(** The state of the UTF-8 decoder inside a multi-byte sequence: the bits
    gathered so far, how many continuation bytes are still due, and the
    range the next byte must lie in. *)
Record utf8_state := {
  code_point : Z;
  bytes_needed : nat;
  lower_boundary : Z;
  upper_boundary : Z
}.

(** A byte read outside a sequence: either output, or a sequence opens. *)
Definition lead_byte (b : Z) : jsstring * option utf8_state :=
  if b <=? 0x7F then ([b], None)
  else if (0xC2 <=? b) && (b <=? 0xDF) then
    ([], Some {| code_point := Z.land b 0x1F; bytes_needed := 1;
                 lower_boundary := 0x80; upper_boundary := 0xBF |})
  else if (0xE0 <=? b) && (b <=? 0xEF) then
    ([], Some {| code_point := Z.land b 0xF; bytes_needed := 2;
                 lower_boundary := if b =? 0xE0 then 0xA0 else 0x80;
                 upper_boundary := if b =? 0xED then 0x9F else 0xBF |})
  else if (0xF0 <=? b) && (b <=? 0xF4) then
    ([], Some {| code_point := Z.land b 0x7; bytes_needed := 3;
                 lower_boundary := if b =? 0xF0 then 0x90 else 0x80;
                 upper_boundary := if b =? 0xF4 then 0x8F else 0xBF |})
  else ([REPLACEMENT], None).

(** The decoder: an ill-formed sequence yields one U+FFFD for its maximal
    valid prefix, and the offending byte is read again as a lead byte. *)
Fixpoint utf8_decode (st : option utf8_state) (bs : list Z) : jsstring :=
  match bs with
  | [] =>
      match st with
      | Some _ => [REPLACEMENT]
      | None => []
      end
  | b :: bs' =>
      match st with
      | None =>
          let (out, st') := lead_byte b in out ++ utf8_decode st' bs'
      | Some s =>
          if (lower_boundary s <=? b) && (b <=? upper_boundary s) then
            let cp := Z.lor (Z.shiftl (code_point s) 6) (Z.land b 0x3F) in
            match bytes_needed s with
            | S (S n) =>
                utf8_decode
                  (Some {| code_point := cp; bytes_needed := S n;
                           lower_boundary := 0x80; upper_boundary := 0xBF |})
                  bs'
            | _ => code_units cp ++ utf8_decode None bs'
            end
          else
            let (out, st') := lead_byte b in
            REPLACEMENT :: out ++ utf8_decode st' bs'
      end
  end.

(** What the boundaries of a sequence guarantee: whichever continuation
    bytes are accepted from here on, the sequence ends in a scalar value. *)
Fixpoint ends_in_scalar (needed : nat) (cp lower upper : Z) : Prop :=
  forall b, lower <= b <= upper ->
    let cp' := Z.lor (Z.shiftl cp 6) (Z.land b 0x3F) in
    match needed with
    | S (S _ as n) => ends_in_scalar n cp' 0x80 0xBF
    | _ => scalar_value cp'
    end.

Definition state_sound (st : option utf8_state) : Prop :=
  match st with
  | Some s =>
      0 <= code_point s /\ 0x80 <= lower_boundary s /\ upper_boundary s <= 0xBF /\
      ends_in_scalar (bytes_needed s) (code_point s)
        (lower_boundary s) (upper_boundary s)
  | None => True
  end.

(** [buf.toString("utf8")]. *)
Definition toString_utf8 (bs : list Z) : jsstring := utf8_decode None bs.

(** The base64url alphabet of RFC 4648, section 5. *)
Definition alphabet : jsstring :=
  str "ABCDEFGHIJKLMNOPQRSTUVWXYZabcdefghijklmnopqrstuvwxyz0123456789-_".

Definition base64url_char (i : Z) : Z := nth (Z.to_nat i) alphabet 0.

(** [buf.toString("base64url")]: three bytes give four characters; the
    last group is short and there is no padding. *)
Fixpoint toString_base64url (bs : list Z) : jsstring :=
  match bs with
  | [] => []
  | [a] =>
      [base64url_char (Z.shiftr a 2);
       base64url_char (Z.shiftl (Z.land a 0x03) 4)]
  | [a; b] =>
      [base64url_char (Z.shiftr a 2);
       base64url_char (Z.lor (Z.shiftl (Z.land a 0x03) 4) (Z.shiftr b 4));
       base64url_char (Z.shiftl (Z.land b 0x0F) 2)]
  | a :: b :: c :: bs' =>
      [base64url_char (Z.shiftr a 2);
       base64url_char (Z.lor (Z.shiftl (Z.land a 0x03) 4) (Z.shiftr b 4));
       base64url_char (Z.lor (Z.shiftl (Z.land b 0x0F) 2) (Z.shiftr c 6));
       base64url_char (Z.land c 0x3F)]
      ++ toString_base64url bs'
  end.

(** The decoder's table: both the base64 and the base64url alphabet are
    legal.  The table is indexed with the low eight bits of the unit. *)
Definition unbase64 (c : Z) : option Z :=
  let x := Z.land c 0xFF in
  if (65 <=? x) && (x <=? 90) then Some (x - 65)
  else if (97 <=? x) && (x <=? 122) then Some (x - 97 + 26)
  else if (48 <=? x) && (x <=? 57) then Some (x - 48 + 52)
  else if (x =? 43) || (x =? 45) then Some 62
  else if (x =? 47) || (x =? 95) then Some 63
  else None.

(** The legal characters up to the first ['='], as six-bit values:
    anything else is skipped, and ['='] ends the input. *)
Fixpoint sextets (s : jsstring) : list Z :=
  match s with
  | [] => []
  | c :: s' =>
      match unbase64 c with
      | Some v => v :: sextets s'
      | None => if Z.land c 0xFF =? 61 then [] else sextets s'
      end
  end.

(** Four six-bit values give three bytes; a last group of two or three
    gives one or two bytes, a single left-over value gives none. *)
Fixpoint decode_groups (l : list Z) : list Z :=
  match l with
  | a :: b :: c :: d :: l' =>
      [Z.lor (Z.shiftl (Z.land a 0x3F) 2) (Z.shiftr (Z.land b 0x30) 4);
       Z.lor (Z.shiftl (Z.land b 0x0F) 4) (Z.shiftr (Z.land c 0x3C) 2);
       Z.lor (Z.shiftl (Z.land c 0x03) 6) (Z.land d 0x3F)]
      ++ decode_groups l'
  | [a; b; c] =>
      [Z.lor (Z.shiftl (Z.land a 0x3F) 2) (Z.shiftr (Z.land b 0x30) 4);
       Z.lor (Z.shiftl (Z.land b 0x0F) 4) (Z.shiftr (Z.land c 0x3C) 2)]
  | [a; b] =>
      [Z.lor (Z.shiftl (Z.land a 0x3F) 2) (Z.shiftr (Z.land b 0x30) 4)]
  | _ => []
  end.

(** [Buffer.from(s, "base64url")]: never throws. *)
Definition from_base64url (s : jsstring) : list Z := decode_groups (sextets s).

End Buffer.

(* ===================================================================== *)
(** ** Base64url helpers (stateless id), server.js lines 62-64 *)
(* ===================================================================== *)

(** [const b64enc = (s) => Buffer.from(s, "utf8").toString("base64url")] *)
Definition b64enc (s : jsstring) : jsstring :=
  Buffer.toString_base64url (Buffer.from_utf8 s).

(** [const b64dec = (s) => Buffer.from(s, "base64url").toString("utf8")] *)
Definition b64dec (s : jsstring) : jsstring :=
  Buffer.toString_utf8 (Buffer.from_base64url s).

(* ===================================================================== *)
(** ** JavaScript values, JSON and URI encoding *)
(* ===================================================================== *)

(** A number is either integral, or it is not; a number that is not integral
    is carried as its decimal rendering (as in the literal [0.3]). *)
Inductive jsnumber :=
| Int (z : Z)
| NonInt (repr : jsstring).

(** The values that [JSON.parse] yields, and [undefined].  An object keeps
    its properties in insertion order. *)
#[warnings="-register-all"]
Inductive jsval :=
| JUndefined
| JNull
| JBool (b : bool)
| JNum (n : jsnumber)
| JStr (s : jsstring)
| JArr (items : list jsval)
| JObj (props : list (jsstring * jsval)).

(** An exception value: the constructor's name and the message. *)
Record js_error := { name : jsstring; message : jsstring }.

(** [new Error(message)] *)
Definition Error (m : jsstring) : js_error := {| name := str "Error"; message := m |}.

Module Json.

Definition nullish (v : jsval) : bool :=
  match v with
  | JUndefined | JNull => true
  | _ => false
  end.

Fixpoint lookup (k : jsstring) (props : list (jsstring * jsval)) : jsval :=
  match props with
  | [] => JUndefined
  | (k', v) :: props' => if eqb_str k k' then v else lookup k props'
  end.

(** [v.k] for a value that is neither [null] nor [undefined], and a name
    [k] that no built-in prototype defines. *)
Definition member (v : jsval) (k : jsstring) : jsval :=
  match v with
  | JObj props => lookup k props
  | _ => JUndefined
  end.

(** [v[0]] for a value that is neither [null] nor [undefined]. *)
Definition first (v : jsval) : jsval :=
  match v with
  | JArr items => nth 0%nat items JUndefined
  | JStr (c :: _) => JStr [c]
  | JObj props => lookup (str "0") props
  | _ => JUndefined
  end.

(** [v?.k] *)
Definition opt_member (v : jsval) (k : jsstring) : jsval :=
  if nullish v then JUndefined else member v k.

(** [v?.[0]] *)
Definition opt_first (v : jsval) : jsval :=
  if nullish v then JUndefined else first v.

(** [a ?? b] *)
Definition coalesce (a b : jsval) : jsval := if nullish a then b else a.

Definition number_toString (n : jsnumber) : jsstring :=
  match n with
  | Int z => Number_toString z
  | NonInt repr => repr
  end.

Fixpoint join (sep : jsstring) (l : list jsstring) : jsstring :=
  match l with
  | [] => []
  | [x] => x
  | x :: l' => x ++ sep ++ join sep l'
  end.

(** Whether an object has an own property of that name. *)
Definition has_key (k : jsstring) (props : list (jsstring * jsval)) : bool :=
  existsb (fun p => eqb_str k (fst p)) props.

(** What the conversion of an object to a primitive throws when neither
    [toString] nor [valueOf] gives one. *)
Definition TypeError : js_error :=
  {| name := str "TypeError";
     message := str "Cannot convert object to primitive value" |}.

(** [`${v}`]: the string conversion of a template literal.  An array is
    joined with commas, [null] and [undefined] elements being empty.  An
    object is [[object Object]] through the inherited [toString]; an own
    property [toString] hides it, and being no function it makes the
    conversion throw. *)
Fixpoint toString (v : jsval) : js_error + jsstring :=
  match v with
  | JUndefined => inr (str "undefined")
  | JNull => inr (str "null")
  | JBool true => inr (str "true")
  | JBool false => inr (str "false")
  | JNum n => inr (number_toString n)
  | JStr s => inr s
  | JArr items =>
      match
        (fix elements (l : list jsval) : js_error + list jsstring :=
           match l with
           | [] => inr []
           | x :: l' =>
               match (if nullish x then inr [] else toString x) with
               | inl e => inl e
               | inr t =>
                   match elements l' with
                   | inl e => inl e
                   | inr ts => inr (t :: ts)
                   end
               end
           end) items
      with
      | inl e => inl e
      | inr ts => inr (join (str ",") ts)
      end
  | JObj props =>
      if has_key (str "toString") props then inl TypeError
      else inr (str "[object Object]")
  end.

Definition hex_lower (d : Z) : Z := nth (Z.to_nat d) (str "0123456789abcdef") 0.
Definition hex_upper (d : Z) : Z := nth (Z.to_nat d) (str "0123456789ABCDEF") 0.

(** [\uXXXX] *)
Definition unicode_escape (c : Z) : jsstring :=
  str "\u" ++ [hex_lower (Z.land (Z.shiftr c 12) 0xF);
               hex_lower (Z.land (Z.shiftr c 8) 0xF);
               hex_lower (Z.land (Z.shiftr c 4) 0xF);
               hex_lower (Z.land c 0xF)].

Definition escape_unit (c : Z) : jsstring :=
  if c =? 8 then str "\b"
  else if c =? 9 then str "\t"
  else if c =? 10 then str "\n"
  else if c =? 12 then str "\f"
  else if c =? 13 then str "\r"
  else if c =? 34 then [92; 34]
  else if c =? 92 then [92; 92]
  else if c <? 0x20 then unicode_escape c
  else [c].

Fixpoint quote_body (s : jsstring) : jsstring :=
  match s with
  | [] => []
  | c :: s' =>
      if is_high_surrogate c then
        match s' with
        | d :: s'' =>
            if is_low_surrogate d then c :: d :: quote_body s''
            else unicode_escape c ++ quote_body s'
        | [] => unicode_escape c
        end
      else if is_low_surrogate c then unicode_escape c ++ quote_body s'
      else escape_unit c ++ quote_body s'
  end.

(** A string as a JSON string literal. *)
Definition quote (s : jsstring) : jsstring := [34] ++ quote_body s ++ [34].

(** The serialisation of a value; [None] stands for [undefined], which an
    array renders as [null] and an object leaves out. *)
Fixpoint serialize (v : jsval) : option jsstring :=
  match v with
  | JUndefined => None
  | JNull => Some (str "null")
  | JBool true => Some (str "true")
  | JBool false => Some (str "false")
  | JNum n => Some (number_toString n)
  | JStr s => Some (quote s)
  | JArr items =>
      Some (str "[" ++
            join (str ",")
              (map (fun x => match serialize x with
                             | Some t => t
                             | None => str "null"
                             end) items) ++
            str "]")
  | JObj props =>
      Some (str "{" ++
            join (str ",")
              ((fix members (ps : list (jsstring * jsval)) : list jsstring :=
                  match ps with
                  | [] => []
                  | (k, x) :: ps' =>
                      match serialize x with
                      | Some t => (quote k ++ str ":" ++ t) :: members ps'
                      | None => members ps'
                      end
                  end) props) ++
            str "}")
  end.

(** [JSON.stringify(v)] inside a string context. *)
Definition stringify (v : jsval) : jsstring :=
  match serialize v with
  | Some t => t
  | None => str "undefined"
  end.

End Json.

Module Uri.

(** The characters [encodeURIComponent] leaves alone:
    letters, digits and [- _ . ! ~ * ' ( )]. *)
Definition unreserved (c : Z) : bool :=
  ((65 <=? c) && (c <=? 90)) || ((97 <=? c) && (c <=? 122)) ||
  ((48 <=? c) && (c <=? 57)) ||
  existsb (Z.eqb c) (str "-_.!~*'()").

Definition percent (b : Z) : jsstring :=
  [37; Json.hex_upper (Z.shiftr b 4); Json.hex_upper (Z.land b 0xF)].

Definition URIError : js_error :=
  {| name := str "URIError"; message := str "URI malformed" |}.

(** [encodeURIComponent(s)]: every other code point is written as the
    percent-escapes of its UTF-8 bytes; a lone surrogate throws. *)
Fixpoint encodeURIComponent (s : jsstring) : js_error + jsstring :=
  match s with
  | [] => inr []
  | c :: s' =>
      if unreserved c then
        match encodeURIComponent s' with
        | inr t => inr (c :: t)
        | inl e => inl e
        end
      else if is_low_surrogate c then inl URIError
      else if is_high_surrogate c then
        match s' with
        | d :: s'' =>
            if is_low_surrogate d then
              match encodeURIComponent s'' with
              | inr t =>
                  inr (flat_map percent
                         (Buffer.utf8_bytes (Buffer.pair_code_point c d)) ++ t)
              | inl e => inl e
              end
            else inl URIError
        | [] => inl URIError
        end
      else
        match encodeURIComponent s' with
        | inr t => inr (flat_map percent (Buffer.utf8_bytes c) ++ t)
        | inl e => inl e
        end
  end.

End Uri.

(* ===================================================================== *)
(** ** The outbound HTTP call *)
(* ===================================================================== *)

(** What [fetch(url, init)] sends. *)
Record request := {
  req_url : jsstring;
  req_method : jsstring;
  req_headers : list (jsstring * jsstring);
  req_body : jsstring
}.

(** What comes back: the status line and the two ways the body is read.
    [res.text()] and [res.json()] are promises; either may reject. *)
Record response := {
  status : Z;
  text_ : js_error + jsstring;
  json_ : js_error + jsval
}.

(** [res.ok]: the status is in the range 200-299. *)
Definition ok (res : response) : bool := (200 <=? status res) && (status res <=? 299).

(** The upstream QA API, as seen from this process: a request is answered by
    a response, or the call itself is rejected. *)
Definition upstream := request -> js_error + response.

(** A computation that may send requests and may throw: it returns its
    outcome and the requests it sent, in order. *)
Definition Net (A : Type) : Type := upstream -> (js_error + A) * list request.

Definition ret {A} (a : A) : Net A := fun _ => (inr a, []).

Definition throw {A} (e : js_error) : Net A := fun _ => (inl e, []).

Definition bind {A B} (m : Net A) (f : A -> Net B) : Net B :=
  fun up =>
    match m up with
    | (inl e, sent) => (inl e, sent)
    | (inr a, sent) => let (r, sent') := f a up in (r, sent ++ sent')
    end.

(** A promise that is already settled. *)
Definition settle {A} (r : js_error + A) : Net A := fun _ => (r, []).

(** [p.catch(h)] *)
Definition catch {A} (m : Net A) (h : js_error -> Net A) : Net A :=
  fun up =>
    match m up with
    | (inl e, sent) => let (r, sent') := h e up in (r, sent ++ sent')
    | (inr a, sent) => (inr a, sent)
    end.

(** [fetch(url, init)] *)
Definition http_fetch (rq : request) : Net response := fun up => (up rq, [rq]).

Declare Scope net_scope.
Delimit Scope net_scope with net.
Notation "x <- m ;; k" := (bind m (fun x => k))
  (at level 61, m at next level, right associativity) : net_scope.
Notation "m ;;; k" := (bind m (fun _ => k))
  (at level 61, right associativity) : net_scope.
Open Scope net_scope.

(** [console.log("[MCP]", ...)]: writes to the console and returns. *)
Definition log : Net unit := ret tt.

(* ===================================================================== *)
(** ** Schema combinators (zod) *)
(* ===================================================================== *)

Module Zod.

(** [z.string()] *)
Definition string_ (v : jsval) : option jsstring :=
  match v with
  | JStr s => Some s
  | _ => None
  end.

(** [z.enum(values)] *)
Definition enum (values : list jsstring) (v : jsval) : option jsstring :=
  match v with
  | JStr s => if existsb (eqb_str s) values then Some s else None
  | _ => None
  end.

(** [z.number().int().positive()] *)
Definition number_int_positive (v : jsval) : option Z :=
  match v with
  | JNum (Int n) => if 0 <? n then Some n else None
  | _ => None
  end.

(** [schema.optional()]: [undefined] passes as it is. *)
Definition optional {A} (schema : jsval -> option A) (v : jsval) : option (option A) :=
  match v with
  | JUndefined => Some None
  | _ =>
      match schema v with
      | Some a => Some (Some a)
      | None => None
      end
  end.

(** The property [k] of the arguments, which must be an object. *)
Definition field (args : jsval) (k : jsstring) : option jsval :=
  match args with
  | JObj props => Some (Json.lookup k props)
  | _ => None
  end.

End Zod.

(* ===================================================================== *)
(** ** Configuration, server.js lines 8-11 *)
(* ===================================================================== *)

(** [process.env], as far as the tools read it. *)
Record environment := {
  PERPLEXITY_API_KEY : option jsstring;
  PERPLEXITY_MODEL : option jsstring
}.

Section Server.

Variable env : environment.

(** [const PPLX_API_KEY = process.env.PERPLEXITY_API_KEY] *)
Definition PPLX_API_KEY : option jsstring := PERPLEXITY_API_KEY env.

(** [const PPLX_MODEL = process.env.PERPLEXITY_MODEL || "sonar-pro"] *)
Definition PPLX_MODEL : jsstring :=
  match PERPLEXITY_MODEL env with
  | Some (c :: m) => c :: m
  | _ => str "sonar-pro"
  end.

Definition PPLX_URL : jsstring := str "https://api.perplexity.ai/chat/completions".

(* ===================================================================== *)
(** ** The answer gateway, server.js lines 16-60 *)
(* ===================================================================== *)

(** [opts]: both fields are optional. *)
Record options := {
  style : option jsstring;
  minWords : option Z
}.

(** [opts = {}] *)
Definition no_options : options := {| style := None; minWords := None |}.

Definition default_system : jsstring := str "Answer helpfully and accurately.".

Definition target_system (target : Z) : jsstring :=
  str "You are a meticulous research assistant. " ++
  str "Write around " ++ Number_toString target ++ str " words if appropriate, " ++
  str "but do NOT pad or fabricate when the question is simple. " ++
  str "Prefer precision over verbosity.".

(** [minWords ?? 0] *)
Definition minWords_or_0 (o : options) : Z :=
  match minWords o with
  | Some n => n
  | None => 0
  end.

(** Lines 22-26: the conditional chain on [style]; [None] is [undefined]. *)
Definition target_of (o : options) : option Z :=
  match style o with
  | Some s =>
      if eqb_str s (str "short") then Some (Z.max 60 (minWords_or_0 o))
      else if eqb_str s (str "medium") then Some (Z.max 160 (minWords_or_0 o))
      else if eqb_str s (str "long") then Some (Z.max 300 (minWords_or_0 o))
      else None
  | None => None
  end.

(** Lines 20-34: the system instruction that is sent. *)
Definition system_of (o : options) : jsstring :=
  if truthy_str (style o) || truthy_num (minWords o) then
    match target_of o with
    | Some target => if target =? 0 then default_system else target_system target
    | None => default_system
    end
  else default_system.

(** Lines 36-51: the request. *)
Definition chat_request (system query : jsstring) : request :=
  {| req_url := PPLX_URL;
     req_method := str "POST";
     req_headers :=
       [(str "Authorization",
         str "Bearer " ++
         match PPLX_API_KEY with Some k => k | None => str "undefined" end);
        (str "Content-Type", str "application/json")];
     req_body :=
       Json.stringify
         (JObj [(str "model", JStr PPLX_MODEL);
                (str "messages",
                 JArr [JObj [(str "role", JStr (str "system"));
                             (str "content", JStr system)];
                       JObj [(str "role", JStr (str "user"));
                             (str "content", JStr query)]]);
                (str "temperature", JNum (NonInt (str "0.3")))]) |}.

(** Line 58: [json?.choices?.[0]?.message?.content ??
    json?.choices?.[0]?.text ?? ""] *)
Definition full_of (json : jsval) : jsval :=
  let choice := Json.opt_first (Json.opt_member json (str "choices")) in
  Json.coalesce
    (Json.coalesce
       (Json.opt_member (Json.opt_member choice (str "message")) (str "content"))
       (Json.opt_member choice (str "text")))
    (JStr []).

(** Line 59: [{ model: json?.model, usage: json?.usage }] *)
Definition meta_of (json : jsval) : jsval :=
  JObj [(str "model", Json.opt_member json (str "model"));
        (str "usage", Json.opt_member json (str "usage"))].

Record answer := { full : jsval; meta : jsval }.

Definition missing_key : js_error := Error (str "Missing PERPLEXITY_API_KEY").

(** What [res.text().catch(() => "")] resolves to. *)
Definition body_or_empty (res : response) : jsstring :=
  match text_ res with
  | inr t => t
  | inl _ => []
  end.

Definition upstream_error (res : response) (txt : jsstring) : js_error :=
  Error (str "Perplexity " ++ Number_toString (status res) ++ str ": " ++ txt).

(** [async function askPerplexity(query, opts = {})] *)
Definition askPerplexity (query : jsstring) (opts : options) : Net answer :=
  if negb (truthy_str PPLX_API_KEY) then throw missing_key
  else
    let system := system_of opts in
    res <- http_fetch (chat_request system query) ;;
    if negb (ok res) then
      txt <- catch (settle (text_ res)) (fun _ => ret []) ;;
      throw (upstream_error res txt)
    else
      json <- settle (json_ res) ;;
      ret {| full := full_of json; meta := meta_of json |}.

(* ===================================================================== *)
(** ** The tools, server.js lines 67-141 *)
(* ===================================================================== *)

(** [{ content: [{ type: "text", text }] }] *)
Record content_block := { type_ : jsstring; text : jsstring }.
Record tool_result := { content : list content_block }.

Definition text_result (t : jsstring) : tool_result :=
  {| content := [ {| type_ := str "text"; text := t |} ] |}.

Definition LF : jsstring := [10].

(** Lines 85-90: the raw-marked payload; the conversion of [full] to a
    string may throw. *)
Definition raw_payload (a : answer) : js_error + jsstring :=
  match Json.toString (full a) with
  | inl e => inl e
  | inr t =>
      inr (str "<<<PPLX_RAW>>>" ++ LF ++
           t ++ LF ++
           str "<<<END_PPLX_RAW>>>" ++ LF ++
           LF ++
           str "[meta] " ++ Json.stringify (meta a))
  end.

(** Lines 82-92: the handler of [answer]. *)
Definition answer_tool (query : jsstring) (style_ : option jsstring)
    (min_words : option Z) : Net tool_result :=
  log ;;;
  a <- askPerplexity query {| style := style_; minWords := min_words |} ;;
  payload <- settle (raw_payload a) ;;
  ret (text_result payload).

Definition title_of (query : jsstring) : jsstring := str "Perplexity: " ++ query.

(** [`https://www.perplexity.ai/search?q=${encodeURIComponent(query)}`] *)
Definition url_of (query : jsstring) : Net jsstring :=
  q <- settle (Uri.encodeURIComponent query) ;;
  ret (str "https://www.perplexity.ai/search?q=" ++ q).

(** Lines 106-112: one search result. *)
Definition search_result (id title url : jsstring) : jsval :=
  JObj [(str "id", JStr id); (str "title", JStr title); (str "url", JStr url)].

(** Lines 103-114: the handler of [search]. *)
Definition search_tool (query : jsstring) : Net tool_result :=
  log ;;;
  let id := b64enc query in
  url <- url_of query ;;
  let results := [search_result id (title_of query) url] in
  ret (text_result (Json.stringify (JObj [(str "results", JArr results)]))).

(** Lines 129-135: the fetched document. *)
Definition document (id query : jsstring) (full_ : jsval) (url : jsstring) : jsval :=
  JObj [(str "id", JStr id);
        (str "title", JStr (title_of query));
        (str "text", full_);
        (str "url", JStr url);
        (str "metadata",
         JObj [(str "source", JStr (str "perplexity"));
               (str "model", JStr PPLX_MODEL)])].

(** Lines 125-137: the handler of [fetch]. *)
Definition fetch_tool (id : jsstring) : Net tool_result :=
  let query := b64dec id in
  log ;;;
  a <- askPerplexity query no_options ;;
  url <- url_of query ;;
  ret (text_result (Json.stringify (document id query (full a) url))).

(* ===================================================================== *)
(** ** Input schemas, server.js lines 76-80, 101, 123 *)
(* ===================================================================== *)

Record answer_args := {
  arg_query : jsstring;
  arg_style : option jsstring;
  arg_min_words : option Z
}.

(** Lines 76-80: [{ query: z.string(),
    style: z.enum(["short", "medium", "long"]).optional(),
    min_words: z.number().int().positive().optional() }] *)
Definition answer_schema (args : jsval) : option answer_args :=
  match Zod.field args (str "query"),
        Zod.field args (str "style"),
        Zod.field args (str "min_words") with
  | Some q, Some s, Some m =>
      match Zod.string_ q,
            Zod.optional (Zod.enum [str "short"; str "medium"; str "long"]) s,
            Zod.optional Zod.number_int_positive m with
      | Some q', Some s', Some m' =>
          Some {| arg_query := q'; arg_style := s'; arg_min_words := m' |}
      | _, _, _ => None
      end
  | _, _, _ => None
  end.

(** Line 101: [{ query: z.string() }] *)
Definition search_schema (args : jsval) : option jsstring :=
  match Zod.field args (str "query") with
  | Some q => Zod.string_ q
  | None => None
  end.

(** Line 123: [{ id: z.string() }] *)
Definition fetch_schema (args : jsval) : option jsstring :=
  match Zod.field args (str "id") with
  | Some i => Zod.string_ i
  | None => None
  end.

(** How a tool call ends: the arguments are rejected by the schema and the
    handler does not run, or the handler throws, or it returns. *)
Inductive outcome :=
| Rejected
| Failed (e : js_error)
| Returned (r : tool_result).

Definition run_handler (h : Net tool_result) : upstream -> outcome * list request :=
  fun up =>
    match h up with
    | (inl e, sent) => (Failed e, sent)
    | (inr r, sent) => (Returned r, sent)
    end.

Inductive tool := answer_ | search_ | fetch_.

(** A call of a registered tool: the arguments are parsed against the
    tool's [inputSchema] first. *)
Definition call_tool (t : tool) (args : jsval) : upstream -> outcome * list request :=
  fun up =>
    match t with
    | answer_ =>
        match answer_schema args with
        | Some a => run_handler (answer_tool (arg_query a) (arg_style a) (arg_min_words a)) up
        | None => (Rejected, [])
        end
    | search_ =>
        match search_schema args with
        | Some q => run_handler (search_tool q) up
        | None => (Rejected, [])
        end
    | fetch_ =>
        match fetch_schema args with
        | Some i => run_handler (fetch_tool i) up
        | None => (Rejected, [])
        end
    end.

End Server.

(* ===================================================================== *)
(** ** The words of the specification *)
(* ===================================================================== *)

Module Spec.

(** A character of the base64url alphabet. *)
Definition alphabet_char (c : Z) : bool := existsb (Z.eqb c) Buffer.alphabet.

(** A validly-encoded token: only characters of the alphabet, and a length
    that an unpadded encoding can have. *)
Definition valid_token (s : jsstring) : bool :=
  forallb alphabet_char s && negb (Z.of_nat (List.length s) mod 4 =? 1).

Definition is_string (v : jsval) : Prop := exists s, v = JStr s.

(** [style] is given and is none of [short], [medium], [long]. *)
Definition bad_style (v : jsval) : Prop :=
  v <> JUndefined /\
  v <> JStr (str "short") /\ v <> JStr (str "medium") /\ v <> JStr (str "long").

(** [min_words] is given and is not a positive integer. *)
Definition bad_min_words (v : jsval) : Prop :=
  v <> JUndefined /\ forall n, 0 < n -> v <> JNum (Int n).

(** The arguments of a call that break the tool's input contract: the
    required string is missing or is not a string, or an optional argument
    is given with a value outside its domain. *)
Definition violates (t : tool) (args : jsval) : Prop :=
  match args with
  | JObj props =>
      match t with
      | answer_ =>
          ~ is_string (Json.lookup (str "query") props) \/
          bad_style (Json.lookup (str "style") props) \/
          bad_min_words (Json.lookup (str "min_words") props)
      | search_ => ~ is_string (Json.lookup (str "query") props)
      | fetch_ => ~ is_string (Json.lookup (str "id") props)
      end
  | _ => True
  end.

End Spec.

(* ===================================================================== *)
(** ** Sample configurations and upstream replies *)
(* ===================================================================== *)

Module Sample.

Definition configured : environment :=
  {| PERPLEXITY_API_KEY := Some (str "pplx-key"); PERPLEXITY_MODEL := None |}.

Definition unconfigured : environment :=
  {| PERPLEXITY_API_KEY := None; PERPLEXITY_MODEL := None |}.

Definition SyntaxError : js_error :=
  {| name := str "SyntaxError";
     message := str "Unexpected token < in JSON at position 0" |}.

(** A chat completion whose answer is [reply], reported by model [sonar]. *)
Definition completion (reply : jsstring) : jsval :=
  JObj [(str "model", JStr (str "sonar"));
        (str "choices",
         JArr [JObj [(str "message",
                      JObj [(str "role", JStr (str "assistant"));
                            (str "content", JStr reply)])]]);
        (str "usage", JObj [(str "total_tokens", JNum (Int 42))])].

(** The upstream answers every request with status 200 and a completion. *)
Definition answering (reply : jsstring) : upstream :=
  fun _ => inr {| status := 200;
                  text_ := inr (Json.stringify (completion reply));
                  json_ := inr (completion reply) |}.

(** The upstream answers with status 200 and a body that is not JSON. *)
Definition not_json : upstream :=
  fun _ => inr {| status := 200;
                  text_ := inr (str "<html>bad gateway</html>");
                  json_ := inl SyntaxError |}.

(** The upstream answers with status 200 and an object without [choices]. *)
Definition no_choices : upstream :=
  fun _ => inr {| status := 200;
                  text_ := inr (str "{}");
                  json_ := inr (JObj []) |}.

(** The upstream answers with status 200 and a completion whose [content]
    is the number 42. *)
Definition numeric : upstream :=
  fun _ => inr {| status := 200;
                  text_ := inr [];
                  json_ := inr (JObj [(str "choices",
                                       JArr [JObj [(str "message",
                                                    JObj [(str "content",
                                                           JNum (Int 42))])]])]) |}.

(** The upstream answers with status 200 and a completion whose [content]
    is an object with a member named [toString]. *)
Definition shadowing : upstream :=
  fun _ => inr {| status := 200;
                  text_ := inr [];
                  json_ := inr (JObj [(str "choices",
                                       JArr [JObj [(str "message",
                                                    JObj [(str "content",
                                                           JObj [(str "toString",
                                                                  JNull)])])]])]) |}.

(** The upstream refuses with status 429 and a short text body. *)
Definition refusing : upstream :=
  fun _ => inr {| status := 429;
                  text_ := inr (str "rate limited");
                  json_ := inl SyntaxError |}.

(** [你好] followed by U+1F600, a surrogate pair. *)
Definition greeting : jsstring := [0x4F60; 0x597D; 0xD83D; 0xDE00].

Definition malformed_reference : jsstring := str "not-valid-base64!!".

End Sample.

(* ===================================================================== *)
(** ** Well-formed strings and the standard alphabet *)
(* ===================================================================== *)

(** [s.toWellFormed()]: every lone surrogate is replaced by U+FFFD. *)
Fixpoint toWellFormed (s : jsstring) : jsstring :=
  match s with
  | [] => []
  | c :: s' =>
      if is_high_surrogate c then
        match s' with
        | d :: s'' =>
            if is_low_surrogate d then c :: d :: toWellFormed s''
            else Buffer.REPLACEMENT :: toWellFormed s'
        | [] => [Buffer.REPLACEMENT]
        end
      else if is_low_surrogate c then Buffer.REPLACEMENT :: toWellFormed s'
      else c :: toWellFormed s'
  end.

(** A base64url character written in the standard base64 alphabet:
    ['-'] becomes ['+'] and ['_'] becomes ['/']. *)
Definition standard_char (c : Z) : Z :=
  if c =? 45 then 43 else if c =? 95 then 47 else c.

(* ===================================================================== *)
(** ** The protocol endpoint, server.js lines 156-173 *)
(* ===================================================================== *)

Module Http.

(** The response object, as far as the route handler reads and writes it. *)
Record http_response := {
  headersSent : bool;
  statusCode : Z;
  body : option jsstring
}.

(** What the calls of the [try] block do for one connection.  Each of them
    returns or throws: [buildServer()] (lines 67-141: the SDK's [McpServer]
    constructor and three [registerTool] calls), the transport constructor,
    [res.on], [server.connect] and [transport.handleRequest]; the last one
    may also write to the response. *)
Record sdk := {
  buildServer : js_error + unit;
  newTransport : js_error + unit;
  onClose : js_error + unit;
  connect : js_error + unit;
  handleRequest : http_response -> (js_error + unit) * http_response
}.

(** What the handler does, in order. *)
Inductive step :=
| BuildServer
| NewTransport
| OnClose
| Connect
| HandleRequest
| ConsoleError (err : js_error).

(** A run of statements inside [try]: the outcome, the response and the
    steps taken so far. *)
Definition Try : Type :=
  http_response -> list step -> (js_error + unit) * http_response * list step.

(** One call: it is attempted, and returns or throws. *)
Definition call (s : step) (r : js_error + unit) : Try :=
  fun res done => (r, res, done ++ [s]).

(** [await transport.handleRequest(req, res, req.body)] *)
Definition handle (k : sdk) : Try :=
  fun res done =>
    let (r, res') := handleRequest k res in (r, res', done ++ [HandleRequest]).

(** Two statements in sequence: a throw skips the rest. *)
Definition then_ (a b : Try) : Try :=
  fun res done =>
    match a res done with
    | (inl err, res', done') => (inl err, res', done')
    | (inr _, res', done') => b res' done'
    end.

(** Lines 158-162: the [try] block. *)
Definition try_block (k : sdk) : Try :=
  then_ (call BuildServer (buildServer k))
    (then_ (call NewTransport (newTransport k))
       (then_ (call OnClose (onClose k))
          (then_ (call Connect (connect k))
             (handle k)))).

(** Lines 167-171: the body of the 500 reply. *)
Definition internal_error : jsval :=
  JObj [(str "jsonrpc", JStr (str "2.0"));
        (str "error",
         JObj [(str "code", JNum (Int (-32603)));
               (str "message", JStr (str "Internal server error"))]);
        (str "id", JNull)].

(** [res.status(code).json(v)] *)
Definition status_json (code : Z) (v : jsval) (res : http_response) : http_response :=
  {| headersSent := true; statusCode := code; body := Some (Json.stringify v) |}.

(** Lines 163-172: the [catch] block. *)
Definition on_error (err : js_error) (res : http_response) (done : list step)
  : http_response * list step :=
  (if negb (headersSent res) then status_json 500 internal_error res else res,
   done ++ [ConsoleError err]).

(** Lines 156-173: [app.post("/mcp", async (req, res) => ...)]. *)
Definition post_mcp (k : sdk) (res : http_response) : http_response * list step :=
  match try_block k res [] with
  | (inl err, res', done) => on_error err res' done
  | (inr _, res', done) => (res', done)
  end.

(** A response nothing has been written to. *)
Definition fresh : http_response :=
  {| headersSent := false; statusCode := 200; body := None |}.

(** [server.connect] rejects. *)
Definition failing_connect : sdk :=
  {| buildServer := inr tt; newTransport := inr tt; onClose := inr tt;
     connect := inl (Error (str "connect failed"));
     handleRequest := fun res => (inr tt, res) |}.

(** [transport.handleRequest] starts to stream the reply and then rejects. *)
Definition failing_stream : sdk :=
  {| buildServer := inr tt; newTransport := inr tt; onClose := inr tt;
     connect := inr tt;
     handleRequest := fun res =>
       (inl (Error (str "stream broke")),
        {| headersSent := true; statusCode := 200; body := Some (str "data: ") |}) |}.

End Http.

Module Fault.

Definition fetch_failed : js_error :=
  {| name := str "TypeError"; message := str "fetch failed" |}.

(** The upstream cannot be reached: [fetch] rejects. *)
Definition unreachable : upstream := fun _ => inl fetch_failed.

End Fault.

(* ===================================================================== *)
(** ** Bit-level arithmetic *)
(* ===================================================================== *)

Section Bits.

(** A disjunction of two numbers with no common bit is their sum. *)
Lemma lor_plus (a b k : Z) :
  0 <= k -> 0 <= b < 2 ^ k -> a mod 2 ^ k = 0 -> Z.lor a b = a + b.
Proof.
  intros Hk Hb Ha.
  assert (Hand : Z.land a b = 0).
  { apply Z.bits_inj'. intros n Hn.
    rewrite Z.land_spec, Z.bits_0.
    destruct (Z.lt_ge_cases n k) as [Hlt | Hge].
    - assert (Hq : a = (a / 2 ^ k) * 2 ^ k).
      { pose proof (Z.div_mod a (2 ^ k)) as D. lia. }
      rewrite Hq, Z.mul_pow2_bits_low by lia. reflexivity.
    - rewrite <- (Z.mod_small b (2 ^ k)) by lia.
      rewrite Z.mod_pow2_bits_high by lia.
      apply andb_false_r. }
  rewrite <- Z.lxor_lor by exact Hand.
  symmetry. apply Z.add_nocarry_lxor. exact Hand.
Qed.

Lemma land_mask (a k : Z) : 0 <= k -> Z.land a (2 ^ k - 1) = a mod 2 ^ k.
Proof.
  intros Hk. rewrite <- Z.land_ones by exact Hk.
  f_equal. rewrite Z.ones_equiv. lia.
Qed.

End Bits.

(** Rewrites shifts and masks by the constants of this file into [/], [mod]
    and [*]. *)
Ltac arith_bits :=
  repeat match goal with
  | |- context [Z.shiftr ?a ?n] => rewrite (Z.shiftr_div_pow2 a n) by lia
  | |- context [Z.shiftl ?a ?n] => rewrite (Z.shiftl_mul_pow2 a n) by lia
  | |- context [Z.land ?a 0x3F] => change (Z.land a 0x3F) with (Z.land a (2 ^ 6 - 1)); rewrite (land_mask a 6) by lia
  | |- context [Z.land ?a 0x1F] => change (Z.land a 0x1F) with (Z.land a (2 ^ 5 - 1)); rewrite (land_mask a 5) by lia
  | |- context [Z.land ?a 0xF] => change (Z.land a 0xF) with (Z.land a (2 ^ 4 - 1)); rewrite (land_mask a 4) by lia
  | |- context [Z.land ?a 0x7] => change (Z.land a 0x7) with (Z.land a (2 ^ 3 - 1)); rewrite (land_mask a 3) by lia
  | |- context [Z.land ?a 0x3] => change (Z.land a 0x3) with (Z.land a (2 ^ 2 - 1)); rewrite (land_mask a 2) by lia
  | |- context [Z.land ?a 0x3FF] => change (Z.land a 0x3FF) with (Z.land a (2 ^ 10 - 1)); rewrite (land_mask a 10) by lia
  | |- context [Z.land ?a 0xFF] => change (Z.land a 0xFF) with (Z.land a (2 ^ 8 - 1)); rewrite (land_mask a 8) by lia
  end.


Lemma shiftr_mask (a m n : Z) :
  Z.shiftr (Z.land a m) n = Z.land (Z.shiftr a n) (Z.shiftr m n).
Proof. apply Z.shiftr_land. Qed.

Ltac solve_divmod :=
  cbn [Z.pow Z.pow_pos Pos.iter Z.mul Pos.mul] in *;
  Z.div_mod_to_equations; lia.

(** Turns the disjunctions of the goal into sums, where both sides are seen
    to have no common bit. *)
Ltac lor_sum :=
  repeat match goal with
  | |- context [Z.lor ?a ?b] =>
      first [ rewrite (lor_plus a b 2) by solve_divmod
            | rewrite (lor_plus a b 4) by solve_divmod
            | rewrite (lor_plus a b 5) by solve_divmod
            | rewrite (lor_plus a b 6) by solve_divmod
            | rewrite (lor_plus a b 7) by solve_divmod
            | rewrite (lor_plus a b 10) by solve_divmod ]
  end.

(** Decides the comparisons of the goal that arithmetic settles. *)
Ltac decide_tests :=
  repeat match goal with
  | |- context [?a <=? ?b] =>
      first [ rewrite (proj2 (Z.leb_le a b)) by solve_divmod
            | rewrite (proj2 (Z.leb_gt a b)) by solve_divmod ]
  | |- context [?a <? ?b] =>
      first [ rewrite (proj2 (Z.ltb_lt a b)) by solve_divmod
            | rewrite (proj2 (Z.ltb_ge a b)) by solve_divmod ]
  | |- context [?a =? ?b] =>
      first [ rewrite (proj2 (Z.eqb_eq a b)) by solve_divmod
            | rewrite (proj2 (Z.eqb_neq a b)) by solve_divmod ]
  end;
  cbn [andb orb negb].

(* ===================================================================== *)
(** ** The codec: base64url *)
(* ===================================================================== *)

Section Base64.

Import Buffer.

Lemma list_ind3 (A : Type) (P : list A -> Prop) :
  P [] -> (forall a, P [a]) -> (forall a b, P [a; b]) ->
  (forall a b c l, P l -> P (a :: b :: c :: l)) ->
  forall l, P l.
Proof.
  intros H0 H1 H2 H3. fix IH 1.
  intros [| a [| b [| c l]]].
  - exact H0.
  - apply H1.
  - apply H2.
  - apply H3. apply IH.
Qed.

(** Every six-bit value is mapped to a character that the decoder's table
    maps back. *)
Lemma unbase64_char (v : Z) : 0 <= v < 64 -> unbase64 (base64url_char v) = Some v.
Proof.
  intros Hv.
  assert (Hn : exists n, v = Z.of_nat n /\ (n < 64)%nat).
  { exists (Z.to_nat v). lia. }
  destruct Hn as (n & -> & Hn).
  do 64 (destruct n as [| n]; [ reflexivity | ]).
  lia.
Qed.

Lemma sextets_char (v : Z) (s : jsstring) :
  0 <= v < 64 -> sextets (base64url_char v :: s) = v :: sextets s.
Proof.
  intros Hv. cbn [sextets]. rewrite unbase64_char by exact Hv. reflexivity.
Qed.

Lemma from_base64url_1 (a : Z) :
  byte a -> from_base64url (toString_base64url [a]) = [a].
Proof.
  unfold byte, from_base64url. intros Ha. cbn [toString_base64url].
  rewrite !sextets_char by (arith_bits; solve_divmod).
  cbn [sextets decode_groups].
  f_equal. rewrite shiftr_mask. change (Z.shiftr 0x30 4) with 0x3.
  arith_bits. lor_sum. solve_divmod.
Qed.

Lemma from_base64url_2 (a b : Z) :
  byte a -> byte b -> from_base64url (toString_base64url [a; b]) = [a; b].
Proof.
  unfold byte, from_base64url. intros Ha Hb. cbn [toString_base64url].
  rewrite !sextets_char by (arith_bits; lor_sum; solve_divmod).
  cbn [sextets decode_groups].
  rewrite !shiftr_mask.
  change (Z.shiftr 0x30 4) with 0x3. change (Z.shiftr 0x3C 2) with 0xF.
  arith_bits. lor_sum.
  f_equal; [ | f_equal ]; solve_divmod.
Qed.

Lemma from_base64url_3 (a b c : Z) (l : list Z) :
  byte a -> byte b -> byte c ->
  from_base64url (toString_base64url (a :: b :: c :: l)) =
  a :: b :: c :: from_base64url (toString_base64url l).
Proof.
  unfold byte, from_base64url. intros Ha Hb Hc. cbn [toString_base64url app].
  rewrite !sextets_char by (arith_bits; lor_sum; solve_divmod).
  cbn [decode_groups app].
  rewrite !shiftr_mask.
  change (Z.shiftr 0x30 4) with 0x3. change (Z.shiftr 0x3C 2) with 0xF.
  arith_bits. lor_sum.
  f_equal; [ | f_equal; [ | f_equal ] ]; solve_divmod.
Qed.

(** Decoding what the encoder wrote gives the bytes back. *)
Lemma from_base64url_toString (bs : list Z) :
  Forall byte bs -> from_base64url (toString_base64url bs) = bs.
Proof.
  induction bs as [| a | a b | a b c l IH] using list_ind3; intros H.
  - reflexivity.
  - inversion H; subst. apply from_base64url_1; assumption.
  - inversion H as [| ? ? Ha H']; subst. inversion H'; subst.
    apply from_base64url_2; assumption.
  - inversion H as [| ? ? Ha H']; subst.
    inversion H' as [| ? ? Hb H'']; subst.
    inversion H'' as [| ? ? Hc Hl]; subst.
    rewrite from_base64url_3 by assumption.
    rewrite IH by assumption. reflexivity.
Qed.

End Base64.

(* ===================================================================== *)
(** ** The codec: UTF-8 *)
(* ===================================================================== *)

Section Utf8.

Import Buffer.

(** One continuation byte that lies within the boundaries. *)
Ltac step_decoder :=
  cbn [app utf8_decode lower_boundary upper_boundary code_point bytes_needed];
  decide_tests.

Ltac same_code_point cp :=
  match goal with
  | |- code_units ?e ++ _ = _ => replace e with cp by solve_divmod; reflexivity
  end.

Lemma utf8_bytes_byte (cp : Z) :
  0 <= cp <= 0x10FFFF -> Forall byte (utf8_bytes cp).
Proof.
  intros Hcp. unfold utf8_bytes, byte.
  destruct (Z.ltb_spec cp 0x80); [ | destruct (Z.ltb_spec cp 0x800);
    [ | destruct (Z.ltb_spec cp 0x10000) ] ];
  arith_bits; lor_sum; repeat constructor; solve_divmod.
Qed.

(** The decoder reads the bytes of a scalar value back as that value. *)
Lemma utf8_decode_bytes (cp : Z) (rest : list Z) :
  scalar_value cp ->
  utf8_decode None (utf8_bytes cp ++ rest) = code_units cp ++ utf8_decode None rest.
Proof.
  intros [Hcp Hsur]. unfold utf8_bytes.
  destruct (Z.ltb_spec cp 0x80) as [H1 | H1].
  { cbn [app utf8_decode]. unfold lead_byte, code_units. decide_tests. reflexivity. }
  destruct (Z.ltb_spec cp 0x800) as [H2 | H2].
  { arith_bits. lor_sum. cbn [app utf8_decode]. unfold lead_byte.
    decide_tests. step_decoder. arith_bits. lor_sum. same_code_point cp. }
  destruct (Z.ltb_spec cp 0x10000) as [H3 | H3].
  { arith_bits. lor_sum. cbn [app utf8_decode]. unfold lead_byte.
    decide_tests.
    destruct (Z.eqb_spec (0xE0 + cp / 2 ^ 12) 0xE0) as [E0 | E0];
    destruct (Z.eqb_spec (0xE0 + cp / 2 ^ 12) 0xED) as [ED | ED];
    try (exfalso; lia);
    do 2 step_decoder; arith_bits; lor_sum; same_code_point cp. }
  arith_bits. lor_sum. cbn [app utf8_decode]. unfold lead_byte.
  decide_tests.
  destruct (Z.eqb_spec (0xF0 + cp / 2 ^ 18) 0xF0) as [F0 | F0];
  destruct (Z.eqb_spec (0xF0 + cp / 2 ^ 18) 0xF4) as [F4 | F4];
  try (exfalso; lia);
  do 3 step_decoder; arith_bits; lor_sum; same_code_point cp.
Qed.

Lemma high_surrogate_range (c : Z) :
  is_high_surrogate c = true <-> 0xD800 <= c <= 0xDBFF.
Proof. unfold is_high_surrogate. lia. Qed.

Lemma low_surrogate_range (c : Z) :
  is_low_surrogate c = true <-> 0xDC00 <= c <= 0xDFFF.
Proof. unfold is_low_surrogate. lia. Qed.

Lemma pair_code_point_sum (hi lo : Z) :
  is_high_surrogate hi = true -> is_low_surrogate lo = true ->
  pair_code_point hi lo = 0x10000 + (hi - 0xD800) * 1024 + (lo - 0xDC00).
Proof.
  rewrite high_surrogate_range, low_surrogate_range. intros Hhi Hlo.
  unfold pair_code_point. arith_bits. lor_sum. lia.
Qed.

Lemma pair_code_point_scalar (hi lo : Z) :
  is_high_surrogate hi = true -> is_low_surrogate lo = true ->
  scalar_value (pair_code_point hi lo).
Proof.
  intros Hhi Hlo. rewrite pair_code_point_sum by assumption.
  apply high_surrogate_range in Hhi. apply low_surrogate_range in Hlo.
  unfold scalar_value. lia.
Qed.

Lemma code_units_pair (hi lo : Z) :
  is_high_surrogate hi = true -> is_low_surrogate lo = true ->
  code_units (pair_code_point hi lo) = [hi; lo].
Proof.
  intros Hhi Hlo. rewrite pair_code_point_sum by assumption.
  apply high_surrogate_range in Hhi. apply low_surrogate_range in Hlo.
  unfold code_units. decide_tests. arith_bits.
  f_equal; [ | f_equal ]; solve_divmod.
Qed.

Lemma code_units_unit (c : Z) : code_unit c -> code_units c = [c].
Proof. unfold code_unit, code_units. intros Hc. decide_tests. reflexivity. Qed.

Lemma unit_scalar (c : Z) :
  code_unit c -> is_high_surrogate c = false -> is_low_surrogate c = false ->
  scalar_value c.
Proof. unfold code_unit, scalar_value, is_high_surrogate, is_low_surrogate. lia. Qed.

(** Induction over a well-formed string, one code point at a time. *)
Lemma well_formed_ind (P : jsstring -> Prop) :
  P [] ->
  (forall c s, code_unit c -> is_high_surrogate c = false ->
               is_low_surrogate c = false -> well_formed s -> P s -> P (c :: s)) ->
  (forall hi lo s, is_high_surrogate hi = true -> is_low_surrogate lo = true ->
                   well_formed s -> P s -> P (hi :: lo :: s)) ->
  forall s, well_formed s -> P s.
Proof.
  intros Hnil Hunit Hpair. fix IH 1.
  intros [| c s'].
  - intros _. exact Hnil.
  - cbn [well_formed]. destruct (is_high_surrogate c) eqn:Hc.
    + destruct s' as [| d s'']; intros (Hu & Hw).
      * destruct Hw.
      * destruct Hw as (Hd & Hw). apply Hpair; auto.
    + intros (Hu & Hl & Hw). apply Hunit; auto.
Qed.

(** The UTF-8 form of a well-formed string consists of bytes. *)
Lemma from_utf8_byte (s : jsstring) : well_formed s -> Forall byte (from_utf8 s).
Proof.
  intros H. induction H as [| c s Hu Hh Hl Hw IH | hi lo s Hh Hl Hw IH]
    using well_formed_ind.
  - constructor.
  - cbn [from_utf8]. rewrite Hh, Hl. apply Forall_app. split; [ | exact IH ].
    apply utf8_bytes_byte. unfold code_unit in Hu. lia.
  - cbn [from_utf8]. rewrite Hh, Hl. apply Forall_app. split; [ | exact IH ].
    apply utf8_bytes_byte.
    destruct (pair_code_point_scalar hi lo Hh Hl) as [R _]. exact R.
Qed.

(** Decoding the UTF-8 form of a well-formed string gives the string back. *)
Lemma toString_from_utf8 (s : jsstring) :
  well_formed s -> toString_utf8 (from_utf8 s) = s.
Proof.
  unfold toString_utf8.
  intros H. induction H as [| c s Hu Hh Hl Hw IH | hi lo s Hh Hl Hw IH]
    using well_formed_ind.
  - reflexivity.
  - cbn [from_utf8]. rewrite Hh, Hl.
    rewrite utf8_decode_bytes by (apply unit_scalar; assumption).
    rewrite IH, code_units_unit by assumption. reflexivity.
  - cbn [from_utf8]. rewrite Hh, Hl.
    rewrite utf8_decode_bytes by (apply pair_code_point_scalar; assumption).
    rewrite IH, code_units_pair by assumption. reflexivity.
Qed.

End Utf8.

(* ===================================================================== *)
(** ** The reference codec *)
(* ===================================================================== *)

(** The decoder undoes the encoder on every well-formed string. *)
Lemma b64dec_b64enc (q : jsstring) : well_formed q -> b64dec (b64enc q) = q.
Proof.
  intros Hq. unfold b64dec, b64enc.
  rewrite from_base64url_toString by (apply from_utf8_byte; exact Hq).
  apply toString_from_utf8. exact Hq.
Qed.

(** X6. Distinct queries have distinct references: on well-formed
    strings [b64enc] is injective. *)
Lemma b64enc_injective (q1 q2 : jsstring) :
  well_formed q1 -> well_formed q2 -> b64enc q1 = b64enc q2 -> q1 = q2.
Proof.
  intros H1 H2 H. rewrite <- (b64dec_b64enc q1 H1), <- (b64dec_b64enc q2 H2), H.
  reflexivity.
Qed.

(** A lone surrogate has no UTF-8 form: it comes back as U+FFFD. *)
Example lone_surrogate_is_replaced : b64dec (b64enc [0xD83D]) = [0xFFFD].
Proof. reflexivity. Qed.

(** C1. Round trip: for every non-empty query [q] that has a UTF-8 form
    (a well-formed string), decoding the reference that [b64enc], the
    encoder used by [search], makes of [q] with [b64dec], the decoder used
    by [fetch], returns [q] unchanged. *)
Theorem C1_round_trip (q : jsstring) :
  q <> [] -> well_formed q -> b64dec (b64enc q) = q.
Proof.
  intros _ Hq. apply b64dec_b64enc. exact Hq.
Qed.

(* ===================================================================== *)
(** ** The answer gateway *)
(* ===================================================================== *)

Section Gateway.

Variable env : environment.
Variable up : upstream.

(** Without a credential the gateway throws at once. *)
Lemma askPerplexity_unconfigured (q : jsstring) (o : options) :
  truthy_str (PERPLEXITY_API_KEY env) = false ->
  askPerplexity env q o up = (inl missing_key, []).
Proof.
  intros Hkey. unfold askPerplexity, PPLX_API_KEY. rewrite Hkey. reflexivity.
Qed.

(** With a credential the gateway sends one request, and what it returns
    is decided by the reply to that request. *)
Lemma askPerplexity_configured (q : jsstring) (o : options) :
  truthy_str (PERPLEXITY_API_KEY env) = true ->
  askPerplexity env q o up =
  let rq := chat_request env (system_of o) q in
  (match up rq with
   | inl e => inl e
   | inr res =>
       if ok res then
         match json_ res with
         | inr json => inr {| full := full_of json; meta := meta_of json |}
         | inl e => inl e
         end
       else inl (upstream_error res (body_or_empty res))
   end, [rq]).
Proof.
  intros Hkey. unfold askPerplexity, PPLX_API_KEY. rewrite Hkey.
  cbn [negb]. unfold bind, http_fetch, catch, settle, throw, ret, body_or_empty.
  destruct (up (chat_request env (system_of o) q)) as [e | res]; [ reflexivity | ].
  destruct (ok res); cbn [negb].
  - destruct (json_ res); reflexivity.
  - destruct (text_ res); reflexivity.
Qed.

(** The gateway sends at most one request. *)
Lemma askPerplexity_single_attempt (q : jsstring) (o : options) :
  (List.length (snd (askPerplexity env q o up)) <= 1)%nat.
Proof.
  destruct (truthy_str (PERPLEXITY_API_KEY env)) eqn:Hkey.
  - rewrite askPerplexity_configured by exact Hkey. cbn. lia.
  - rewrite askPerplexity_unconfigured by exact Hkey. cbn. lia.
Qed.

(** The handler of [answer] asks the gateway, then writes the payload. *)
Lemma answer_tool_unfold (q : jsstring) (st : option jsstring) (mw : option Z) :
  answer_tool env q st mw up =
  match askPerplexity env q {| style := st; minWords := mw |} up with
  | (inl e, sent) => (inl e, sent)
  | (inr a, sent) =>
      match raw_payload a with
      | inl e => (inl e, sent)
      | inr payload => (inr (text_result payload), sent)
      end
  end.
Proof.
  unfold answer_tool, bind, log, ret, settle. cbn [app].
  destruct (askPerplexity env q _ up) as [[e | a] sent]; [ reflexivity | ].
  destruct (raw_payload a); rewrite ?app_nil_r; reflexivity.
Qed.

(** The handler of [fetch] decodes, asks the gateway, then builds the url
    and the document. *)
Lemma fetch_tool_unfold (id : jsstring) :
  fetch_tool env id up =
  match askPerplexity env (b64dec id) no_options up with
  | (inl e, sent) => (inl e, sent)
  | (inr a, sent) =>
      match Uri.encodeURIComponent (b64dec id) with
      | inl e => (inl e, sent)
      | inr u =>
          (inr (text_result
                  (Json.stringify
                     (document env id (b64dec id) (full a)
                        (str "https://www.perplexity.ai/search?q=" ++ u)))), sent)
      end
  end.
Proof.
  unfold fetch_tool, url_of, bind, log, ret, settle. cbn [app].
  destruct (askPerplexity env (b64dec id) no_options up) as [[e | a] sent];
    [ reflexivity | ].
  destruct (Uri.encodeURIComponent (b64dec id)); rewrite ?app_nil_r; reflexivity.
Qed.

End Gateway.

(* ===================================================================== *)
(** ** The length policy *)
(* ===================================================================== *)

Section LengthPolicy.

(** Neither hint: the default instruction. *)
Lemma system_of_no_hint : system_of no_options = default_system.
Proof. reflexivity. Qed.

(** A style, with or without [minWords]: the larger of the style's floor
    and [minWords ?? 0]. *)
Lemma system_of_short (mw : option Z) :
  system_of {| style := Some (str "short"); minWords := mw |} =
  target_system (Z.max 60 (match mw with Some n => n | None => 0 end)).
Proof.
  unfold system_of, target_of, minWords_or_0. cbn [style minWords].
  change (eqb_str (str "short") (str "short")) with true. cbv iota.
  change (truthy_str (Some (str "short"))) with true. cbn [orb].
  destruct (Z.eqb_spec (Z.max 60 match mw with Some n => n | None => 0 end) 0);
    [ lia | reflexivity ].
Qed.

Lemma system_of_medium (mw : option Z) :
  system_of {| style := Some (str "medium"); minWords := mw |} =
  target_system (Z.max 160 (match mw with Some n => n | None => 0 end)).
Proof.
  unfold system_of, target_of, minWords_or_0. cbn [style minWords].
  change (eqb_str (str "medium") (str "short")) with false.
  change (eqb_str (str "medium") (str "medium")) with true. cbv iota.
  change (truthy_str (Some (str "medium"))) with true. cbn [orb].
  destruct (Z.eqb_spec (Z.max 160 match mw with Some n => n | None => 0 end) 0);
    [ lia | reflexivity ].
Qed.

Lemma system_of_long (mw : option Z) :
  system_of {| style := Some (str "long"); minWords := mw |} =
  target_system (Z.max 300 (match mw with Some n => n | None => 0 end)).
Proof.
  unfold system_of, target_of, minWords_or_0. cbn [style minWords].
  change (eqb_str (str "long") (str "short")) with false.
  change (eqb_str (str "long") (str "medium")) with false.
  change (eqb_str (str "long") (str "long")) with true. cbv iota.
  change (truthy_str (Some (str "long"))) with true. cbn [orb].
  destruct (Z.eqb_spec (Z.max 300 match mw with Some n => n | None => 0 end) 0);
    [ lia | reflexivity ].
Qed.

(** Without a style no branch of the chain is taken: the target is
    [undefined], whatever [minWords] is. *)
Lemma target_of_no_style (mw : option Z) :
  target_of {| style := None; minWords := mw |} = None.
Proof. reflexivity. Qed.

Lemma system_of_no_style (mw : option Z) :
  system_of {| style := None; minWords := mw |} = default_system.
Proof.
  unfold system_of. rewrite target_of_no_style.
  destruct (truthy_str _ || truthy_num _); reflexivity.
Qed.

(** C3. The length policy of the gateway, at the input where style is
    absent and [minWords] is 500: the claim resolves the target to 500 and
    has the instruction ask for around 500 words; the code resolves no
    target and sends the default instruction, on the call of the gateway
    as well as through the [answer] tool. *)
Theorem C3_min_words_alone_keeps_default :
  let o := {| style := None; minWords := Some 500 |} in
  target_of o = None /\
  system_of o = default_system /\
  system_of o <> target_system 500 /\
  snd (askPerplexity Sample.configured (str "x") o (Sample.answering (str "ok"))) =
    [chat_request Sample.configured default_system (str "x")] /\
  snd (call_tool Sample.configured answer_
         (JObj [(str "query", JStr (str "x")); (str "min_words", JNum (Int 500))])
         (Sample.answering (str "ok"))) =
    [chat_request Sample.configured default_system (str "x")].
Proof.
  cbv zeta. repeat split; try reflexivity.
  vm_compute. discriminate.
Qed.

End LengthPolicy.

(* ===================================================================== *)
(** ** Failures of the gateway *)
(* ===================================================================== *)

Section Failures.

Variable env : environment.
Variable up : upstream.

(** C4. Missing credential: when the upstream credential is absent from
    the configuration (unset, or set to the empty string), every call of
    the [answer] tool and of the [fetch] tool ends as a failure of that
    call with the configuration error [Missing PERPLEXITY_API_KEY], and no
    request has been sent. *)
Theorem C4_missing_credential :
  truthy_str (PERPLEXITY_API_KEY env) = false ->
  (forall q st mw, answer_tool env q st mw up = (inl missing_key, [])) /\
  (forall id, fetch_tool env id up = (inl missing_key, [])) /\
  (forall t args, t <> search_ ->
     call_tool env t args up = (Failed missing_key, []) \/
     call_tool env t args up = (Rejected, [])).
Proof.
  intros Hkey.
  assert (Ha : forall q st mw, answer_tool env q st mw up = (inl missing_key, [])).
  { intros. rewrite answer_tool_unfold, askPerplexity_unconfigured by exact Hkey.
    reflexivity. }
  assert (Hf : forall id, fetch_tool env id up = (inl missing_key, [])).
  { intros. rewrite fetch_tool_unfold, askPerplexity_unconfigured by exact Hkey.
    reflexivity. }
  repeat split; try assumption.
  intros t args Ht. destruct t; [ | congruence | ]; unfold call_tool, run_handler.
  - destruct (answer_schema args); [ rewrite Ha | ]; auto.
  - destruct (fetch_schema args); [ rewrite Hf | ]; auto.
Qed.

(** C5. Upstream failure: when the reply to the gateway's request has a
    status outside 200-299, the call fails with the error whose message is
    [Perplexity <status>: <body>], the body being the text that was read or
    the empty string when reading it failed; the same error ends the call
    of the tool that asked, and the request was sent once. *)
Theorem C5_upstream_error (q : jsstring) (o : options) (res : response) :
  truthy_str (PERPLEXITY_API_KEY env) = true ->
  up (chat_request env (system_of o) q) = inr res ->
  ok res = false ->
  let e := Error (str "Perplexity " ++ Number_toString (status res) ++ str ": " ++
                  match text_ res with inr t => t | inl _ => [] end) in
  let sent := [chat_request env (system_of o) q] in
  askPerplexity env q o up = (inl e, sent) /\
  answer_tool env q (style o) (minWords o) up = (inl e, sent) /\
  (forall id, b64dec id = q -> o = no_options -> fetch_tool env id up = (inl e, sent)).
Proof.
  intros Hkey Hres Hok e sent.
  assert (Hask : askPerplexity env q o up = (inl e, sent)).
  { rewrite askPerplexity_configured by exact Hkey. cbv zeta.
    rewrite Hres, Hok. reflexivity. }
  split; [ exact Hask | split ].
  - rewrite answer_tool_unfold. destruct o as [st mw]. cbn [style minWords].
    rewrite Hask. reflexivity.
  - intros id Hid Ho. subst q o. rewrite fetch_tool_unfold, Hask. reflexivity.
Qed.

(** When the gateway returns, the reply had a status in 200-299 and its
    body was read as JSON. *)
Lemma askPerplexity_returns (q : jsstring) (o : options) (a : answer)
    (sent : list request) :
  askPerplexity env q o up = (inr a, sent) ->
  exists res json,
    up (chat_request env (system_of o) q) = inr res /\ ok res = true /\
    json_ res = inr json /\
    a = {| full := full_of json; meta := meta_of json |} /\
    sent = [chat_request env (system_of o) q].
Proof.
  destruct (truthy_str (PERPLEXITY_API_KEY env)) eqn:Hkey.
  - rewrite askPerplexity_configured by exact Hkey. cbv zeta.
    destruct (up _) as [e | res]; [ discriminate | ].
    destruct (ok res) eqn:Hok; [ | discriminate ].
    destruct (json_ res) as [e | json] eqn:Hjson; [ discriminate | ].
    intros H. inversion H; subst. exists res, json. auto.
  - rewrite askPerplexity_unconfigured by exact Hkey. discriminate.
Qed.

(** An answer path that ends in [null] or [undefined] is passed over. *)
Lemma full_of_neither (json : jsval) :
  let choice := Json.opt_first (Json.opt_member json (str "choices")) in
  Json.nullish (Json.opt_member (Json.opt_member choice (str "message"))
                  (str "content")) = true ->
  Json.nullish (Json.opt_member choice (str "text")) = true ->
  full_of json = JStr [].
Proof.
  cbv zeta. intros Hc Ht. unfold full_of, Json.coalesce.
  rewrite Hc, Ht. reflexivity.
Qed.

(** A payload without a first choice has neither path. *)
Lemma full_of_no_choice (json : jsval) :
  Json.nullish (Json.opt_first (Json.opt_member json (str "choices"))) = true ->
  full_of json = JStr [].
Proof.
  intros H.
  assert (Hk : forall k,
    Json.opt_member (Json.opt_first (Json.opt_member json (str "choices"))) k =
    JUndefined).
  { intros k. unfold Json.opt_member at 1. rewrite H. reflexivity. }
  apply full_of_neither; rewrite Hk; reflexivity.
Qed.

(** C6, as amended. Degenerate payload: when the reply has a status in
    200-299 and its body is read as JSON, and in that value both
    [choices[0].message.content] and [choices[0].text] are missing or
    [null], the gateway returns the empty string as the answer text. *)
Theorem C6_degenerate_payload (q : jsstring) (o : options) (res : response)
    (json : jsval) :
  truthy_str (PERPLEXITY_API_KEY env) = true ->
  up (chat_request env (system_of o) q) = inr res ->
  ok res = true ->
  json_ res = inr json ->
  Json.nullish
    (Json.opt_member
       (Json.opt_member
          (Json.opt_first (Json.opt_member json (str "choices"))) (str "message"))
       (str "content")) = true ->
  Json.nullish
    (Json.opt_member
       (Json.opt_first (Json.opt_member json (str "choices"))) (str "text")) = true ->
  askPerplexity env q o up =
    (inr {| full := JStr []; meta := meta_of json |},
     [chat_request env (system_of o) q]).
Proof.
  intros Hkey Hres Hok Hjson Hc Ht.
  rewrite askPerplexity_configured by exact Hkey. cbv zeta.
  rewrite Hres, Hok, Hjson, full_of_neither by assumption. reflexivity.
Qed.

End Failures.

Lemma C4_missing_credential_witness :
  truthy_str (PERPLEXITY_API_KEY Sample.unconfigured) = false /\
  answer_tool Sample.unconfigured (str "x") (Some (str "short")) None
    (Sample.answering (str "ok")) = (inl missing_key, []) /\
  fetch_tool Sample.unconfigured (str "Y2F0cw") (Sample.answering (str "ok")) =
    (inl missing_key, []).
Proof.
  split; [ reflexivity | ].
  destruct (C4_missing_credential Sample.unconfigured
              (Sample.answering (str "ok")) eq_refl) as (Ha & Hf & _).
  split; [ apply Ha | apply Hf ].
Defined.

Lemma C5_upstream_error_witness :
  askPerplexity Sample.configured (str "x") no_options Sample.refusing =
    (inl (Error (str "Perplexity 429: rate limited")),
     [chat_request Sample.configured default_system (str "x")]).
Proof.
  exact (proj1 (C5_upstream_error Sample.configured Sample.refusing (str "x")
                  no_options
                  {| status := 429; text_ := inr (str "rate limited");
                     json_ := inl Sample.SyntaxError |}
                  eq_refl eq_refl eq_refl)).
Defined.

Lemma C6_degenerate_payload_witness :
  askPerplexity Sample.configured (str "x") no_options Sample.no_choices =
    (inr {| full := JStr []; meta := meta_of (JObj []) |},
     [chat_request Sample.configured default_system (str "x")]).
Proof.
  apply (C6_degenerate_payload Sample.configured Sample.no_choices (str "x")
           no_options
           {| status := 200; text_ := inr (str "{}"); json_ := inr (JObj []) |});
    reflexivity.
Defined.

(** C6, as stated, fails: a reply with status 200 whose body is not JSON
    does not give an empty answer, it makes the call fail with the error of
    [res.json()]; and a reply whose [content] is a number gives that number,
    not the empty string. *)
Lemma C6_malformed_payload_not_empty :
  ok {| status := 200; text_ := inr (str "<html>bad gateway</html>");
        json_ := inl Sample.SyntaxError |} = true /\
  askPerplexity Sample.configured (str "x") no_options Sample.not_json =
    (inl Sample.SyntaxError,
     [chat_request Sample.configured default_system (str "x")]) /\
  (forall m,
     fst (askPerplexity Sample.configured (str "x") no_options Sample.not_json)
     <> inr {| full := JStr []; meta := m |}) /\
  fst (askPerplexity Sample.configured (str "x") no_options Sample.numeric) =
    inr {| full := JNum (Int 42);
           meta := JObj [(str "model", JUndefined); (str "usage", JUndefined)] |}.
Proof.
  split; [ reflexivity | split; [ reflexivity | split; [ | reflexivity ] ] ].
  intros m. discriminate.
Qed.

(** A payload of the right shape with an answer that is not text: the
    value is returned as it is. *)
Example full_of_number :
  full_of (JObj [(str "choices",
                  JArr [JObj [(str "message",
                               JObj [(str "content", JNum (Int 42))])]])]) =
  JNum (Int 42).
Proof. reflexivity. Qed.

(* ===================================================================== *)
(** ** What the decoder returns *)
(* ===================================================================== *)

Section Decoder.

Import Buffer.

Lemma well_formed_app (a b : jsstring) :
  well_formed a -> well_formed b -> well_formed (a ++ b).
Proof.
  intros Ha Hb.
  induction Ha as [| c s Hu Hh Hl Hw IH | hi lo s Hh Hl Hw IH]
    using well_formed_ind.
  - exact Hb.
  - cbn [app well_formed]. rewrite Hh. auto.
  - cbn [app well_formed]. rewrite Hh.
    apply high_surrogate_range in Hh as Rh.
    unfold code_unit. repeat split; auto; lia.
Qed.

Lemma well_formed_unit (c : Z) :
  code_unit c -> is_high_surrogate c = false -> is_low_surrogate c = false ->
  well_formed [c].
Proof. intros Hu Hh Hl. cbn [well_formed]. rewrite Hh. auto. Qed.

Lemma well_formed_replacement : well_formed [REPLACEMENT].
Proof. apply well_formed_unit; [ unfold code_unit, REPLACEMENT; lia | | ]; reflexivity. Qed.

Lemma code_units_well_formed (cp : Z) :
  scalar_value cp -> well_formed (code_units cp).
Proof.
  intros [Hcp Hsur]. unfold code_units.
  destruct (Z.ltb_spec cp 0x10000) as [H | H].
  - apply well_formed_unit; unfold code_unit, is_high_surrogate, is_low_surrogate; lia.
  - cbn [well_formed].
    assert (Hh : is_high_surrogate (0xD800 + Z.shiftr (cp - 0x10000) 10) = true).
    { apply high_surrogate_range. arith_bits. solve_divmod. }
    assert (Hl : is_low_surrogate (0xDC00 + Z.land (cp - 0x10000) 0x3FF) = true).
    { apply low_surrogate_range. arith_bits. solve_divmod. }
    rewrite Hh. apply high_surrogate_range in Hh.
    unfold code_unit. repeat split; auto; lia.
Qed.

(** A lead byte either is output that is well formed, or opens a sequence
    whose boundaries keep surrogates and overlong forms out. *)
Lemma lead_byte_sound (b : Z) :
  byte b -> well_formed (fst (lead_byte b)) /\ state_sound (snd (lead_byte b)).
Proof.
  unfold byte. intros Hb. unfold lead_byte.
  destruct (Z.leb_spec b 0x7F) as [H1 | H1]; cbn [fst snd].
  { split; [ | exact I ].
    apply well_formed_unit; unfold code_unit, is_high_surrogate, is_low_surrogate; lia. }
  destruct (Z.leb_spec 0xC2 b) as [H2 | H2];
    [ destruct (Z.leb_spec b 0xDF) as [H3 | H3] | ]; cbn [andb fst snd].
  { split; [ exact I | ].
    unfold state_sound. cbn [code_point bytes_needed lower_boundary upper_boundary
                             ends_in_scalar].
    repeat split; try lia.
    - arith_bits. solve_divmod.
    - arith_bits. lor_sum. solve_divmod.
    - arith_bits. lor_sum. solve_divmod.
    - arith_bits. lor_sum. solve_divmod. }
  all: destruct (Z.leb_spec 0xE0 b) as [H4 | H4];
    [ destruct (Z.leb_spec b 0xEF) as [H5 | H5] | ]; cbn [andb fst snd].
  all: try (split; [ exact I | ];
    unfold state_sound; cbn [code_point bytes_needed lower_boundary upper_boundary
                             ends_in_scalar];
    destruct (Z.eqb_spec b 0xE0); destruct (Z.eqb_spec b 0xED);
    repeat split; try lia; try (arith_bits; solve_divmod);
    intros; arith_bits; lor_sum; solve_divmod).
  all: destruct (Z.leb_spec 0xF0 b) as [H6 | H6];
    [ destruct (Z.leb_spec b 0xF4) as [H7 | H7] | ]; cbn [andb fst snd].
  all: try (split; [ exact I | ];
    unfold state_sound; cbn [code_point bytes_needed lower_boundary upper_boundary
                             ends_in_scalar];
    destruct (Z.eqb_spec b 0xF0); destruct (Z.eqb_spec b 0xF4);
    repeat split; try lia; try (arith_bits; solve_divmod);
    intros; arith_bits; lor_sum; solve_divmod).
  all: split; [ exact well_formed_replacement | exact I ].
Qed.

(** Whatever bytes it reads, the decoder writes a well-formed string. *)
Lemma utf8_decode_well_formed (bs : list Z) :
  Forall byte bs -> forall st, state_sound st -> well_formed (utf8_decode st bs).
Proof.
  induction 1 as [| b bs Hb Hbs IH]; intros st Hst.
  - destruct st; [ exact well_formed_replacement | exact I ].
  - destruct (lead_byte_sound b Hb) as [Hout Hnext].
    cbn [utf8_decode]. destruct st as [s | ].
    + destruct Hst as (Hcp & Hlo & Hup & Hends).
      destruct ((lower_boundary s <=? b) && (b <=? upper_boundary s)) eqn:Hin.
      * assert (Hrange : lower_boundary s <= b <= upper_boundary s) by lia.
        destruct (bytes_needed s) as [| [| n]]; cbn [ends_in_scalar] in Hends;
          specialize (Hends b Hrange); cbv zeta in Hends.
        -- apply well_formed_app; [ apply code_units_well_formed; exact Hends | ].
           apply IH. exact I.
        -- apply well_formed_app; [ apply code_units_well_formed; exact Hends | ].
           apply IH. exact I.
        -- apply IH. unfold state_sound.
           cbn [code_point bytes_needed lower_boundary upper_boundary].
           repeat split; try lia; [ | exact Hends ].
           unfold byte in Hb. arith_bits. lor_sum. solve_divmod.
      * destruct (lead_byte b) as [out st']. cbn [fst snd] in Hout, Hnext.
        apply (well_formed_app [REPLACEMENT]); [ exact well_formed_replacement | ].
        apply well_formed_app; [ exact Hout | apply IH; exact Hnext ].
    + destruct (lead_byte b) as [out st']. cbn [fst snd] in Hout, Hnext.
      apply well_formed_app; [ exact Hout | apply IH; exact Hnext ].
Qed.

Lemma list_ind4 (A : Type) (P : list A -> Prop) :
  P [] -> (forall a, P [a]) -> (forall a b, P [a; b]) -> (forall a b c, P [a; b; c]) ->
  (forall a b c d l, P l -> P (a :: b :: c :: d :: l)) ->
  forall l, P l.
Proof.
  intros H0 H1 H2 H3 H4. fix IH 1.
  intros [| a [| b [| c [| d l]]]].
  - exact H0.
  - apply H1.
  - apply H2.
  - apply H3.
  - apply H4. apply IH.
Qed.

(** The base64 decoder writes bytes, whatever characters it reads. *)
Lemma decode_groups_byte (l : list Z) : Forall byte (decode_groups l).
Proof.
  induction l as [| a | a b | a b c | a b c d l IH] using list_ind4;
    cbn [decode_groups app]; repeat constructor; try exact IH;
    unfold byte; rewrite ?shiftr_mask;
    change (Z.shiftr 0x30 4) with 0x3; change (Z.shiftr 0x3C 2) with 0xF;
    arith_bits; lor_sum; solve_divmod.
Qed.

(** [b64dec] returns a well-formed string on every input. *)
Lemma b64dec_well_formed (s : jsstring) : well_formed (b64dec s).
Proof.
  unfold b64dec, toString_utf8, from_base64url.
  apply utf8_decode_well_formed; [ apply decode_groups_byte | exact I ].
Qed.

(** A character that is neither in the table nor ['='] is passed over. *)
Lemma sextets_skip (s1 s2 : jsstring) (c : Z) :
  unbase64 c = None -> Z.land c 0xFF <> 61 ->
  sextets (s1 ++ c :: s2) = sextets (s1 ++ s2).
Proof.
  intros Hc Hpad. induction s1 as [| d s1 IH]; cbn [app sextets].
  - rewrite Hc. destruct (Z.eqb_spec (Z.land c 0xFF) 61); [ contradiction | reflexivity ].
  - rewrite IH. reflexivity.
Qed.

Lemma b64dec_skip (s1 s2 : jsstring) (c : Z) :
  unbase64 c = None -> Z.land c 0xFF <> 61 ->
  b64dec (s1 ++ c :: s2) = b64dec (s1 ++ s2).
Proof.
  intros Hc Hpad. unfold b64dec, from_base64url.
  rewrite sextets_skip by assumption. reflexivity.
Qed.

End Decoder.

(* ===================================================================== *)
(** ** URI encoding *)
(* ===================================================================== *)

Section UriEncoding.

Lemma unreserved_ascii (c : Z) : Uri.unreserved c = true -> 0 <= c < 128.
Proof.
  unfold Uri.unreserved.
  change (str "-_.!~*'()") with [45; 95; 46; 33; 126; 42; 39; 40; 41].
  cbn [existsb]. lia.
Qed.

(** [encodeURIComponent] returns on every well-formed string. *)
Lemma encodeURIComponent_returns (s : jsstring) :
  well_formed s -> exists t, Uri.encodeURIComponent s = inr t.
Proof.
  intros H. induction H as [| c s Hu Hh Hl Hw [t IH] | hi lo s Hh Hl Hw [t IH]]
    using well_formed_ind.
  - exists []. reflexivity.
  - cbn [Uri.encodeURIComponent]. rewrite IH, Hh, Hl.
    destruct (Uri.unreserved c); eexists; reflexivity.
  - cbn [Uri.encodeURIComponent]. rewrite IH, Hh, Hl.
    destruct (Uri.unreserved hi) eqn:Hun.
    + apply unreserved_ascii in Hun. apply high_surrogate_range in Hh. lia.
    + assert (Hhl : is_low_surrogate hi = false).
      { apply high_surrogate_range in Hh. unfold is_low_surrogate. lia. }
      rewrite Hhl. eexists; reflexivity.
Qed.

End UriEncoding.

(* ===================================================================== *)
(** ** The tools *)
(* ===================================================================== *)

Section Tools.

Variable env : environment.
Variable up : upstream.

(** C7. Search shape: for every query (a well-formed string), the [search]
    tool returns one text block, the JSON of an object whose [results] is a
    list of exactly one entry; the entry's [id] is the base64url encoding
    of the query, its [title] is [Perplexity: ] followed by the query and
    its [url] is the search url with the URI-encoded query; no request is
    sent to the upstream API. *)
Theorem C7_search_one_result (q : jsstring) :
  well_formed q ->
  exists escaped,
    Uri.encodeURIComponent q = inr escaped /\
    search_tool q up =
      (inr {| content :=
                [ {| type_ := str "text";
                     text :=
                       Json.stringify
                         (JObj [(str "results",
                                 JArr [JObj [(str "id", JStr (b64enc q));
                                             (str "title",
                                              JStr (str "Perplexity: " ++ q));
                                             (str "url",
                                              JStr (str "https://www.perplexity.ai/search?q="
                                                    ++ escaped))]])]) |} ] |},
       []).
Proof.
  intros Hq. destruct (encodeURIComponent_returns q Hq) as [escaped He].
  exists escaped. split; [ exact He | ].
  unfold search_tool, url_of, bind, log, ret, settle, title_of. rewrite He.
  reflexivity.
Qed.

(** The handler of [search] never sends a request, whatever the query. *)
Lemma search_tool_offline (q : jsstring) : snd (search_tool q up) = [].
Proof.
  unfold search_tool, url_of, bind, log, ret, settle.
  destruct (Uri.encodeURIComponent q); reflexivity.
Qed.

(** A query with a lone surrogate makes [encodeURIComponent] throw. *)
Example search_lone_surrogate : search_tool [0xD83D] up = (inl Uri.URIError, []).
Proof. reflexivity. Qed.

(** The reference of a search result leads [fetch] back to the query. *)
Lemma fetch_after_search (q : jsstring) :
  well_formed q ->
  fetch_tool env (b64enc q) up =
  match askPerplexity env q no_options up with
  | (inl e, sent) => (inl e, sent)
  | (inr a, sent) =>
      match Uri.encodeURIComponent q with
      | inl e => (inl e, sent)
      | inr u =>
          (inr (text_result
                  (Json.stringify
                     (document env (b64enc q) q (full a)
                        (str "https://www.perplexity.ai/search?q=" ++ u)))), sent)
      end
  end.
Proof.
  intros Hq. rewrite fetch_tool_unfold, b64dec_b64enc by exact Hq. reflexivity.
Qed.

(** C2, as amended. Fetch of any reference: the decode step of the [fetch]
    tool returns a well-formed string for every input, valid token or not,
    and the call fails only when the gateway fails on the decoded query,
    with the gateway's error. *)
Theorem C2_fetch_fails_only_in_gateway (id : jsstring) (e : js_error)
    (sent : list request) :
  fetch_tool env id up = (inl e, sent) ->
  well_formed (b64dec id) /\
  askPerplexity env (b64dec id) no_options up = (inl e, sent).
Proof.
  intros H. split; [ apply b64dec_well_formed | ].
  rewrite fetch_tool_unfold in H.
  destruct (askPerplexity env (b64dec id) no_options up) as [[e' | a] sent'].
  - inversion H. reflexivity.
  - destruct (encodeURIComponent_returns (b64dec id) (b64dec_well_formed id))
      as [u Hu].
    rewrite Hu in H. discriminate.
Qed.

(** C9, as amended. Decoding is total: [b64dec] returns a well-formed
    string for every input string; a character whose low byte is in
    neither base64 alphabet and is not ['='] is passed over, and ['=']
    ends the input.  So the [fetch] tool never stops at the decode step:
    with the credential configured it sends, for every id, exactly one
    request, whose user message is the decoded query; without the
    credential it fails with the configuration error and sends nothing. *)
Theorem C9_decode_total (id : jsstring) :
  well_formed (b64dec id) /\
  (forall s1 s2 c,
     let x := Z.land c 0xFF in
     ~ 65 <= x <= 90 -> ~ 97 <= x <= 122 -> ~ 48 <= x <= 57 ->
     x <> 43 -> x <> 45 -> x <> 47 -> x <> 95 -> x <> 61 ->
     b64dec (s1 ++ c :: s2) = b64dec (s1 ++ s2)) /\
  (forall s t, b64dec (s ++ 61 :: t) = b64dec s) /\
  (forall k, PERPLEXITY_API_KEY env = Some k -> k <> [] ->
     snd (fetch_tool env id up) =
       [ {| req_url := str "https://api.perplexity.ai/chat/completions";
            req_method := str "POST";
            req_headers :=
              [(str "Authorization", str "Bearer " ++ k);
               (str "Content-Type", str "application/json")];
            req_body :=
              Json.stringify
                (JObj [(str "model", JStr (PPLX_MODEL env));
                       (str "messages",
                        JArr [JObj [(str "role", JStr (str "system"));
                                    (str "content",
                                     JStr (str "Answer helpfully and accurately."))];
                              JObj [(str "role", JStr (str "user"));
                                    (str "content", JStr (b64dec id))]]);
                       (str "temperature", JNum (NonInt (str "0.3")))]) |} ]) /\
  (truthy_str (PERPLEXITY_API_KEY env) = false ->
   fetch_tool env id up = (inl (Error (str "Missing PERPLEXITY_API_KEY")), [])).
Proof.
  assert (Hsent :
    snd (fetch_tool env id up) = snd (askPerplexity env (b64dec id) no_options up)).
  { rewrite fetch_tool_unfold.
    destruct (askPerplexity env (b64dec id) no_options up) as [[e | a] sent];
      [ reflexivity | ].
    destruct (Uri.encodeURIComponent (b64dec id)); reflexivity. }
  split; [ apply b64dec_well_formed | ].
  split; [ | split; [ | split ] ].
  - intros s1 s2 c x H1 H2 H3 H4 H5 H6 H7 H8. apply b64dec_skip; [ | exact H8 ].
    unfold Buffer.unbase64. fold x.
    destruct (Z.leb_spec 65 x), (Z.leb_spec x 90); try lia;
    destruct (Z.leb_spec 97 x), (Z.leb_spec x 122); try lia;
    destruct (Z.leb_spec 48 x), (Z.leb_spec x 57); try lia;
    destruct (Z.eqb_spec x 43), (Z.eqb_spec x 45); try lia;
    destruct (Z.eqb_spec x 47), (Z.eqb_spec x 95); try lia; reflexivity.
  - intros s t. unfold b64dec, Buffer.from_base64url.
    f_equal. f_equal. induction s as [| c s IH]; [ reflexivity | ].
    cbn [app Buffer.sextets]. rewrite IH. reflexivity.
  - intros k Hk Hne. rewrite Hsent.
    rewrite askPerplexity_configured
      by (rewrite Hk; destruct k; [ congruence | reflexivity ]).
    cbv zeta. cbn [snd]. unfold chat_request, PPLX_API_KEY. rewrite Hk.
    reflexivity.
  - intros Hkey. rewrite fetch_tool_unfold, askPerplexity_unconfigured by exact Hkey.
    reflexivity.
Qed.

(** C10. Provenance: in every document the [fetch] tool returns,
    [metadata.model] is the configured model identifier [PPLX_MODEL] (the
    value of PERPLEXITY_MODEL, or [sonar-pro]); the document is made of the
    id, the decoded query, the answer text and the configuration, and the
    [meta] of the gateway's answer does not enter it. *)
Theorem C10_configured_model (id : jsstring) (r : tool_result)
    (sent : list request) :
  fetch_tool env id up = (inr r, sent) ->
  exists res json escaped doc,
    up (chat_request env default_system (b64dec id)) = inr res /\
    json_ res = inr json /\
    Uri.encodeURIComponent (b64dec id) = inr escaped /\
    doc = document env id (b64dec id) (full_of json)
            (str "https://www.perplexity.ai/search?q=" ++ escaped) /\
    r = text_result (Json.stringify doc) /\
    Json.member (Json.member doc (str "metadata")) (str "model") =
      JStr (PPLX_MODEL env) /\
    PPLX_MODEL env =
      match PERPLEXITY_MODEL env with
      | Some (c :: m) => c :: m
      | _ => str "sonar-pro"
      end.
Proof.
  intros H. rewrite fetch_tool_unfold in H.
  destruct (askPerplexity env (b64dec id) no_options up) as [[e | a] sent']
    eqn:Hask; [ discriminate | ].
  apply askPerplexity_returns in Hask.
  destruct Hask as (res & json & Hres & Hok & Hjson & Ha & Hsent).
  destruct (Uri.encodeURIComponent (b64dec id)) as [e | escaped] eqn:Hu;
    [ discriminate | ].
  inversion H; subst. cbn [full].
  exists res, json, escaped.
  eexists. repeat split; try eassumption; reflexivity.
Qed.

End Tools.

Lemma C7_search_one_result_witness :
  well_formed (str "cats") /\
  search_tool (str "cats") (Sample.answering (str "ok")) =
    (inr {| content :=
              [ {| type_ := str "text";
                   text :=
                     Json.stringify
                       (JObj [(str "results",
                               JArr [JObj [(str "id", JStr (str "Y2F0cw"));
                                           (str "title",
                                            JStr (str "Perplexity: cats"));
                                           (str "url",
                                            JStr (str "https://www.perplexity.ai/search?q=cats"))]])]) |} ] |},
     []).
Proof.
  assert (Hq : well_formed (str "cats")).
  { cbn. unfold code_unit. repeat split; lia. }
  split; [ exact Hq | ].
  destruct (C7_search_one_result (Sample.answering (str "ok")) (str "cats") Hq)
    as (escaped & He & Hs).
  rewrite Hs. vm_compute in He. inversion He; subst. reflexivity.
Defined.

Lemma C1_round_trip_witness :
  Sample.greeting <> [] /\ well_formed Sample.greeting /\
  b64dec (b64enc Sample.greeting) = Sample.greeting.
Proof.
  assert (Hne : Sample.greeting <> []) by discriminate.
  assert (Hwf : well_formed Sample.greeting).
  { cbn. unfold code_unit. repeat split; lia. }
  split; [ exact Hne | split; [ exact Hwf | ] ].
  apply (C1_round_trip Sample.greeting Hne Hwf).
Defined.

(** C2, as stated, fails: [not-valid-base64!!] is not a valid token, yet
    the [fetch] tool decodes it (the two ['!'] are passed over, the rest is
    read as twelve bytes, and what is not UTF-8 in them becomes U+FFFD),
    sends the decoded text upstream and returns a document. *)
Lemma C2_malformed_reference_is_fetched :
  Spec.valid_token Sample.malformed_reference = false /\
  b64dec Sample.malformed_reference =
    [0xFFFD; 0xFFFD; 126; 0xFFFD; 0xFFFD; 98; 119; 0xFFFD; 0x6B1; 0xFFFD] /\
  exists r,
    fetch_tool Sample.configured Sample.malformed_reference
      (Sample.answering (str "ok")) =
    (inr r, [chat_request Sample.configured default_system
               (b64dec Sample.malformed_reference)]).
Proof.
  split; [ reflexivity | split; [ reflexivity | ] ].
  eexists. vm_compute. reflexivity.
Qed.

Lemma C2_fetch_fails_only_in_gateway_witness :
  askPerplexity Sample.configured (b64dec Sample.malformed_reference) no_options
    Sample.refusing =
  (inl (Error (str "Perplexity 429: rate limited")),
   [chat_request Sample.configured default_system
      (b64dec Sample.malformed_reference)]).
Proof.
  apply (C2_fetch_fails_only_in_gateway Sample.configured Sample.refusing
           Sample.malformed_reference).
  vm_compute. reflexivity.
Defined.

Lemma C9_decode_total_witness :
  PERPLEXITY_API_KEY Sample.configured = Some (str "pplx-key") /\
  List.map req_url
    (snd (fetch_tool Sample.configured Sample.malformed_reference
            (Sample.answering (str "ok")))) =
  [str "https://api.perplexity.ai/chat/completions"].
Proof.
  split; [ reflexivity | ].
  destruct (C9_decode_total Sample.configured (Sample.answering (str "ok"))
              Sample.malformed_reference) as (_ & _ & _ & Hsent & _).
  rewrite (Hsent (str "pplx-key") eq_refl); [ reflexivity | discriminate ].
Defined.

(** C9, as stated, fails: without the credential the [fetch] tool issues
    no upstream call, whatever the id; and ['='] is not passed over, it
    ends the input. *)
Lemma C9_no_call_without_credential :
  fetch_tool Sample.unconfigured (str "Y2F0cw") (Sample.answering (str "ok")) =
    (inl (Error (str "Missing PERPLEXITY_API_KEY")), []) /\
  snd (fetch_tool Sample.unconfigured (str "Y2F0cw")
         (Sample.answering (str "ok"))) = [] /\
  b64dec (str "Y2F0cw") = str "cats" /\
  b64dec (str "Y2F0=cw") = str "cat".
Proof. repeat split. Qed.

Lemma C10_configured_model_witness :
  exists doc,
    fst (fetch_tool Sample.configured (str "Y2F0cw") (Sample.answering (str "ok"))) =
      inr (text_result (Json.stringify doc)) /\
    Json.member (Json.member doc (str "metadata")) (str "model") =
      JStr (str "sonar-pro") /\
    Json.opt_member (Sample.completion (str "ok")) (str "model") =
      JStr (str "sonar").
Proof.
  destruct (C10_configured_model Sample.configured (Sample.answering (str "ok"))
              (str "Y2F0cw")
              (text_result
                 (Json.stringify
                    (document Sample.configured (str "Y2F0cw") (str "cats")
                       (JStr (str "ok"))
                       (str "https://www.perplexity.ai/search?q=cats"))))
              [chat_request Sample.configured default_system (str "cats")])
    as (res & json & escaped & doc & _ & _ & _ & _ & Hr & Hm & _).
  { vm_compute. reflexivity. }
  exists doc. split; [ | split; [ exact Hm | reflexivity ] ].
  rewrite <- Hr. vm_compute. reflexivity.
Defined.

(* ===================================================================== *)
(** ** Input validation *)
(* ===================================================================== *)

Section Validation.

Variable env : environment.
Variable up : upstream.

Lemma eqb_str_neq (a b : jsstring) : a <> b -> eqb_str a b = false.
Proof.
  intros H. unfold eqb_str. destruct (list_eq_dec Z.eq_dec a b); congruence.
Qed.

Lemma eqb_str_eq (a b : jsstring) : eqb_str a b = true -> a = b.
Proof.
  unfold eqb_str. destruct (list_eq_dec Z.eq_dec a b); congruence.
Qed.

Lemma string_rejects (v : jsval) : Zod.string_ v = None <-> ~ Spec.is_string v.
Proof.
  unfold Spec.is_string. split.
  - intros H [s ->]. discriminate.
  - intros H. destruct v; try reflexivity. exfalso. apply H. eauto.
Qed.

Lemma style_rejects (v : jsval) :
  Zod.optional (Zod.enum [str "short"; str "medium"; str "long"]) v = None <->
  Spec.bad_style v.
Proof.
  unfold Spec.bad_style. split.
  - intros H. repeat split; intros ->; vm_compute in H; discriminate.
  - intros (Hu & H1 & H2 & H3). destruct v; try reflexivity; try congruence.
    cbn [Zod.optional Zod.enum existsb].
    rewrite !eqb_str_neq by congruence. reflexivity.
Qed.

Lemma min_words_rejects (v : jsval) :
  Zod.optional Zod.number_int_positive v = None <-> Spec.bad_min_words v.
Proof.
  unfold Spec.bad_min_words. split.
  - intros H. split.
    + intros ->. discriminate.
    + intros n Hn ->. cbn in H.
      destruct (Z.ltb_spec 0 n); [ discriminate | lia ].
  - intros (Hu & Hn). destruct v as [ | | | [n | r] | | | ];
      try reflexivity; try congruence.
    cbn [Zod.optional Zod.number_int_positive].
    destruct (Z.ltb_spec 0 n) as [Hpos | Hpos]; [ | reflexivity ].
    exfalso. apply (Hn n Hpos). reflexivity.
Qed.

Lemma answer_schema_rejects (args : jsval) :
  answer_schema args = None <-> Spec.violates answer_ args.
Proof.
  destruct args as [ | | | | | | props]; try (cbn; tauto).
  unfold answer_schema, Spec.violates. cbn [Zod.field].
  rewrite <- string_rejects, <- style_rejects, <- min_words_rejects.
  destruct (Zod.string_ _), (Zod.optional (Zod.enum _) _),
    (Zod.optional Zod.number_int_positive _);
    split; intros H; try discriminate; auto;
    destruct H as [H | [H | H]]; discriminate.
Qed.

Lemma search_schema_rejects (args : jsval) :
  search_schema args = None <-> Spec.violates search_ args.
Proof.
  destruct args as [ | | | | | | props]; try (cbn; tauto).
  unfold search_schema, Spec.violates. cbn [Zod.field]. apply string_rejects.
Qed.

Lemma fetch_schema_rejects (args : jsval) :
  fetch_schema args = None <-> Spec.violates fetch_ args.
Proof.
  destruct args as [ | | | | | | props]; try (cbn; tauto).
  unfold fetch_schema, Spec.violates. cbn [Zod.field]. apply string_rejects.
Qed.

Lemma run_handler_not_rejected (h : Net tool_result) :
  fst (run_handler h up) <> Rejected.
Proof. unfold run_handler. destruct (h up) as [[e | r] sent]; discriminate. Qed.

(** C8, as amended. Input validation: a call is rejected by the schema,
    before the handler runs and with no request sent, when [style] is given
    and is none of [short], [medium], [long], when [min_words] is given and
    is not a positive integer, or when the required [query] / [id] is
    missing or is not a string; and a call is rejected only then, so an
    empty string passes as [query] and as [id]. *)
Theorem C8_schema_validation (t : tool) (args : jsval) :
  (Spec.violates t args -> call_tool env t args up = (Rejected, [])) /\
  (fst (call_tool env t args up) = Rejected -> Spec.violates t args).
Proof.
  unfold call_tool. destruct t.
  - rewrite <- answer_schema_rejects. destruct (answer_schema args) as [a | ].
    + split; [ discriminate | ]. intros H.
      exfalso. exact (run_handler_not_rejected _ H).
    + split; reflexivity.
  - rewrite <- search_schema_rejects. destruct (search_schema args) as [q | ].
    + split; [ discriminate | ]. intros H.
      exfalso. exact (run_handler_not_rejected _ H).
    + split; reflexivity.
  - rewrite <- fetch_schema_rejects. destruct (fetch_schema args) as [i | ].
    + split; [ discriminate | ]. intros H.
      exfalso. exact (run_handler_not_rejected _ H).
    + split; reflexivity.
Qed.

End Validation.

Lemma C8_schema_validation_witness :
  Spec.violates answer_
    (JObj [(str "query", JStr (str "x")); (str "style", JStr (str "huge"))]) /\
  call_tool Sample.configured answer_
    (JObj [(str "query", JStr (str "x")); (str "style", JStr (str "huge"))])
    (Sample.answering (str "ok")) = (Rejected, []).
Proof.
  assert (Hv : Spec.violates answer_
    (JObj [(str "query", JStr (str "x")); (str "style", JStr (str "huge"))])).
  { right. left. repeat split; discriminate. }
  split; [ exact Hv | ].
  exact (proj1 (C8_schema_validation Sample.configured
                  (Sample.answering (str "ok")) answer_ _) Hv).
Defined.

(** C8, as stated, fails: the empty string is accepted as [query] and as
    [id].  A [search] for it returns a result, and a [fetch] of it sends a
    request upstream. *)
Lemma C8_empty_string_is_accepted :
  search_schema (JObj [(str "query", JStr [])]) = Some [] /\
  fetch_schema (JObj [(str "id", JStr [])]) = Some [] /\
  (exists r,
     call_tool Sample.configured search_ (JObj [(str "query", JStr [])])
       (Sample.answering (str "ok")) = (Returned r, [])) /\
  (exists r,
     call_tool Sample.configured fetch_ (JObj [(str "id", JStr [])])
       (Sample.answering (str "ok")) =
     (Returned r, [chat_request Sample.configured default_system []])).
Proof.
  repeat split; try reflexivity; eexists; vm_compute; reflexivity.
Qed.

(* ===================================================================== *)
(** ** More about the codec *)
(* ===================================================================== *)

Section Codec.

Import Buffer.

Lemma list_ind2 (A : Type) (P : list A -> Prop) :
  P [] -> (forall a, P [a]) ->
  (forall a b l, P l -> P (b :: l) -> P (a :: b :: l)) ->
  forall l, P l.
Proof.
  intros H0 H1 H2 l.
  assert (H : P l /\ forall a, P (a :: l)).
  { induction l as [| b l [IH1 IH2]].
    - split; [ exact H0 | exact H1 ].
    - split; [ apply IH2 | ]. intros a. apply H2; [ exact IH1 | apply IH2 ]. }
  exact (proj1 H).
Qed.

Lemma replacement_utf8_byte : Forall byte REPLACEMENT_utf8.
Proof. unfold REPLACEMENT_utf8, byte. repeat constructor; lia. Qed.

Lemma code_unit_tail (c : Z) (s : jsstring) :
  Forall code_unit (c :: s) -> code_unit c /\ Forall code_unit s.
Proof. intros H. inversion H; subst. auto. Qed.

Lemma from_utf8_cons (c : Z) (s : jsstring) :
  from_utf8 (c :: s) =
  if is_high_surrogate c then
    match s with
    | d :: s'' =>
        if is_low_surrogate d
        then utf8_bytes (pair_code_point c d) ++ from_utf8 s''
        else REPLACEMENT_utf8 ++ from_utf8 s
    | [] => REPLACEMENT_utf8
    end
  else if is_low_surrogate c then REPLACEMENT_utf8 ++ from_utf8 s
  else utf8_bytes c ++ from_utf8 s.
Proof. reflexivity. Qed.

(** The UTF-8 form of any string consists of bytes. *)
Lemma from_utf8_byte_any (s : jsstring) :
  Forall code_unit s -> Forall byte (from_utf8 s).
Proof.
  induction s as [| a | a b l IHl IHbl] using list_ind2; intros H.
  - constructor.
  - apply code_unit_tail in H as [Ha _]. rewrite from_utf8_cons.
    destruct (is_high_surrogate a); [ exact replacement_utf8_byte | ].
    destruct (is_low_surrogate a); rewrite app_nil_r;
      [ exact replacement_utf8_byte | ].
    apply utf8_bytes_byte. unfold code_unit in Ha. lia.
  - apply code_unit_tail in H as [Ha H]. pose proof H as Hbl.
    apply code_unit_tail in H as [Hb Hl].
    specialize (IHl Hl). specialize (IHbl Hbl).
    rewrite from_utf8_cons.
    destruct (is_high_surrogate a) eqn:Hh.
    + destruct (is_low_surrogate b) eqn:Hlo; apply Forall_app; split;
        try assumption.
      * apply utf8_bytes_byte.
        destruct (pair_code_point_scalar a b Hh Hlo) as [R _]. exact R.
      * exact replacement_utf8_byte.
    + destruct (is_low_surrogate a); apply Forall_app; split; try assumption.
      * exact replacement_utf8_byte.
      * apply utf8_bytes_byte. unfold code_unit in Ha. lia.
Qed.

End Codec.


(* ===================================================================== *)
(** ** References *)
(* ===================================================================== *)

Section References.

Import Buffer.

Lemma toWellFormed_cons (c : Z) (s : jsstring) :
  toWellFormed (c :: s) =
  if is_high_surrogate c then
    match s with
    | d :: s'' =>
        if is_low_surrogate d then c :: d :: toWellFormed s''
        else REPLACEMENT :: toWellFormed s
    | [] => [REPLACEMENT]
    end
  else if is_low_surrogate c then REPLACEMENT :: toWellFormed s
  else c :: toWellFormed s.
Proof. reflexivity. Qed.

Lemma well_formed_cons_unit (c : Z) (s : jsstring) :
  code_unit c -> is_high_surrogate c = false -> is_low_surrogate c = false ->
  well_formed s -> well_formed (c :: s).
Proof. intros Hu Hh Hl Hs. cbn [well_formed]. rewrite Hh. auto. Qed.

Lemma well_formed_cons_pair (hi lo : Z) (s : jsstring) :
  is_high_surrogate hi = true -> is_low_surrogate lo = true ->
  well_formed s -> well_formed (hi :: lo :: s).
Proof.
  intros Hh Hl Hs. cbn [well_formed]. rewrite Hh.
  apply high_surrogate_range in Hh. unfold code_unit. repeat split; auto; lia.
Qed.

Lemma well_formed_cons_replacement (s : jsstring) :
  well_formed s -> well_formed (REPLACEMENT :: s).
Proof.
  intros Hs. apply well_formed_cons_unit; auto; try reflexivity.
  unfold code_unit, REPLACEMENT. lia.
Qed.

(** [toWellFormed] makes a well-formed string of any string. *)
Lemma toWellFormed_well_formed (s : jsstring) :
  Forall code_unit s -> well_formed (toWellFormed s).
Proof.
  induction s as [| a | a b l IHl IHbl] using list_ind2; intros H.
  - exact I.
  - apply code_unit_tail in H as [Ha _]. rewrite toWellFormed_cons.
    destruct (is_high_surrogate a) eqn:Hh;
      [ exact well_formed_replacement | ].
    destruct (is_low_surrogate a) eqn:Hl;
      [ exact well_formed_replacement | ].
    apply well_formed_unit; assumption.
  - apply code_unit_tail in H as [Ha H]. pose proof H as Hbl.
    apply code_unit_tail in H as [Hb Hl].
    specialize (IHl Hl). specialize (IHbl Hbl).
    rewrite toWellFormed_cons.
    destruct (is_high_surrogate a) eqn:Hh.
    + destruct (is_low_surrogate b) eqn:Hlo.
      * apply well_formed_cons_pair; assumption.
      * apply well_formed_cons_replacement; assumption.
    + destruct (is_low_surrogate a) eqn:Hlo.
      * apply well_formed_cons_replacement; assumption.
      * apply well_formed_cons_unit; assumption.
Qed.

Lemma utf8_bytes_replacement : utf8_bytes REPLACEMENT = REPLACEMENT_utf8.
Proof. reflexivity. Qed.

(** A string and its well-formed version have the same UTF-8 form. *)
Lemma from_utf8_toWellFormed (s : jsstring) :
  from_utf8 (toWellFormed s) = from_utf8 s.
Proof.
  induction s as [| a | a b l IHl IHbl] using list_ind2.
  - reflexivity.
  - rewrite toWellFormed_cons, (from_utf8_cons a []).
    destruct (is_high_surrogate a) eqn:Hh; [ reflexivity | ].
    destruct (is_low_surrogate a) eqn:Hl; [ reflexivity | ].
    cbn [toWellFormed]. rewrite from_utf8_cons, Hh, Hl. reflexivity.
  - rewrite toWellFormed_cons, (from_utf8_cons a (b :: l)).
    destruct (is_high_surrogate a) eqn:Hh.
    + destruct (is_low_surrogate b) eqn:Hlo.
      * rewrite from_utf8_cons, Hh, Hlo, IHl. reflexivity.
      * rewrite from_utf8_cons, IHbl. reflexivity.
    + destruct (is_low_surrogate a) eqn:Hlo.
      * rewrite from_utf8_cons, IHbl. reflexivity.
      * rewrite from_utf8_cons, Hh, Hlo, IHbl. reflexivity.
Qed.

(** X1. Round trip of any string: decoding the reference of a string [s]
    gives [s] with every lone surrogate replaced by U+FFFD, that is
    [s.toWellFormed()]. *)
Theorem b64dec_b64enc_any (s : jsstring) :
  Forall code_unit s -> b64dec (b64enc s) = toWellFormed s.
Proof.
  intros Hs. unfold b64enc. rewrite <- from_utf8_toWellFormed.
  apply b64dec_b64enc. apply toWellFormed_well_formed. exact Hs.
Qed.

Lemma b64dec_b64enc_any_witness :
  b64dec (b64enc [0x61; 0xD83D; 0x62; 0xDE00]) = [0x61; 0xFFFD; 0x62; 0xFFFD].
Proof.
  apply (b64dec_b64enc_any [0x61; 0xD83D; 0x62; 0xDE00]).
  unfold code_unit. repeat constructor; lia.
Defined.

(** X2. What [b64dec] returns is a fixed point of the codec: encoding it
    and decoding again gives the same string, for every input. *)
Theorem b64dec_normal_form (id : jsstring) :
  b64dec (b64enc (b64dec id)) = b64dec id.
Proof. apply b64dec_b64enc. apply b64dec_well_formed. Qed.

Lemma alphabet_char_of (v : Z) :
  0 <= v < 64 -> Spec.alphabet_char (base64url_char v) = true.
Proof.
  intros Hv.
  assert (Hn : exists n, v = Z.of_nat n /\ (n < 64)%nat).
  { exists (Z.to_nat v). lia. }
  destruct Hn as (n & -> & Hn).
  do 64 (destruct n as [| n]; [ reflexivity | ]).
  lia.
Qed.

Lemma alphabet_char_unreserved (c : Z) :
  Spec.alphabet_char c = true -> Uri.unreserved c = true.
Proof.
  unfold Spec.alphabet_char, Uri.unreserved.
  change alphabet with
    [65; 66; 67; 68; 69; 70; 71; 72; 73; 74; 75; 76; 77; 78; 79; 80; 81; 82;
     83; 84; 85; 86; 87; 88; 89; 90; 97; 98; 99; 100; 101; 102; 103; 104; 105;
     106; 107; 108; 109; 110; 111; 112; 113; 114; 115; 116; 117; 118; 119;
     120; 121; 122; 48; 49; 50; 51; 52; 53; 54; 55; 56; 57; 45; 95].
  change (str "-_.!~*'()") with [45; 95; 46; 33; 126; 42; 39; 40; 41].
  cbn [existsb]. lia.
Qed.

(** The encoder writes characters of the alphabet only. *)
Lemma toString_base64url_alphabet (bs : list Z) :
  Forall byte bs ->
  Forall (fun c => Spec.alphabet_char c = true) (toString_base64url bs).
Proof.
  unfold byte.
  induction bs as [| a | a b | a b c l IH] using list_ind3; intros H.
  - constructor.
  - inversion H; subst. cbn [toString_base64url].
    repeat constructor; apply alphabet_char_of; arith_bits; solve_divmod.
  - inversion H as [| ? ? Ha H']; subst. inversion H'; subst.
    cbn [toString_base64url].
    repeat constructor; apply alphabet_char_of; arith_bits; lor_sum; solve_divmod.
  - inversion H as [| ? ? Ha H']; subst.
    inversion H' as [| ? ? Hb H'']; subst.
    inversion H'' as [| ? ? Hc Hl]; subst.
    cbn [toString_base64url app].
    repeat (constructor; [ apply alphabet_char_of; arith_bits; lor_sum; solve_divmod | ]).
    apply IH. exact Hl.
Qed.

(** A string of unreserved characters is its own URI encoding. *)
Lemma encodeURIComponent_unreserved (s : jsstring) :
  Forall (fun c => Uri.unreserved c = true) s -> Uri.encodeURIComponent s = inr s.
Proof.
  induction 1 as [| c s Hc Hs IH]; [ reflexivity | ].
  cbn [Uri.encodeURIComponent]. rewrite Hc, IH. reflexivity.
Qed.

(** X3. A reference is safe in a URL: for every string, [b64enc] writes
    characters of the base64url alphabet only (no padding), and
    [encodeURIComponent] leaves the reference as it is. *)
Theorem b64enc_url_safe (s : jsstring) :
  Forall code_unit s ->
  Forall (fun c => Spec.alphabet_char c = true) (b64enc s) /\
  Uri.encodeURIComponent (b64enc s) = inr (b64enc s).
Proof.
  intros Hs.
  assert (Ha : Forall (fun c => Spec.alphabet_char c = true) (b64enc s)).
  { apply toString_base64url_alphabet, from_utf8_byte_any. exact Hs. }
  split; [ exact Ha | ].
  apply encodeURIComponent_unreserved.
  eapply Forall_impl; [ | exact Ha ]. apply alphabet_char_unreserved.
Qed.

Lemma b64enc_url_safe_witness :
  Uri.encodeURIComponent (b64enc Sample.greeting) = inr (b64enc Sample.greeting).
Proof.
  apply (b64enc_url_safe Sample.greeting).
  unfold code_unit. repeat constructor; lia.
Defined.

Lemma toString_base64url_length (bs : list Z) :
  Z.of_nat (List.length (toString_base64url bs)) =
  (4 * Z.of_nat (List.length bs) + 2) / 3.
Proof.
  induction bs as [| a | a b | a b c l IH] using list_ind3.
  - reflexivity.
  - reflexivity.
  - reflexivity.
  - cbn [toString_base64url app List.length].
    rewrite !Nat2Z.inj_succ, IH.
    Z.div_mod_to_equations. lia.
Qed.

Lemma utf8_bytes_length (cp : Z) :
  (1 <= List.length (utf8_bytes cp) <= 4)%nat /\
  (cp < 0x10000 -> (List.length (utf8_bytes cp) <= 3)%nat) /\
  (0x10000 <= cp -> List.length (utf8_bytes cp) = 4%nat).
Proof.
  unfold utf8_bytes.
  destruct (Z.ltb_spec cp 0x80); [ | destruct (Z.ltb_spec cp 0x800);
    [ | destruct (Z.ltb_spec cp 0x10000) ] ]; cbn [List.length]; lia.
Qed.

(** Every code unit takes between one and three bytes of UTF-8. *)
Lemma from_utf8_length (s : jsstring) :
  Forall code_unit s ->
  (List.length s <= List.length (from_utf8 s) <= 3 * List.length s)%nat.
Proof.
  induction s as [| a | a b l IHl IHbl] using list_ind2; intros H.
  - cbn. lia.
  - apply code_unit_tail in H as [Ha _]. rewrite from_utf8_cons.
    destruct (is_high_surrogate a); [ cbn; lia | ].
    destruct (is_low_surrogate a); rewrite app_nil_r; [ cbn; lia | ].
    pose proof (utf8_bytes_length a) as (L1 & L2 & _).
    unfold code_unit in Ha. cbn [List.length]. lia.
  - apply code_unit_tail in H as [Ha H]. pose proof H as Hbl.
    apply code_unit_tail in H as [Hb Hl].
    specialize (IHl Hl). specialize (IHbl Hbl).
    rewrite from_utf8_cons. cbn [List.length] in *.
    destruct (is_high_surrogate a) eqn:Hh.
    + destruct (is_low_surrogate b) eqn:Hlo; rewrite length_app.
      * pose proof (utf8_bytes_length (pair_code_point a b)) as (_ & _ & L).
        rewrite L; [ lia | ]. rewrite pair_code_point_sum by assumption.
        apply high_surrogate_range in Hh. apply low_surrogate_range in Hlo. lia.
      * cbn [List.length REPLACEMENT_utf8]. unfold REPLACEMENT_utf8.
        cbn [List.length]. lia.
    + destruct (is_low_surrogate a); rewrite length_app.
      * unfold REPLACEMENT_utf8. cbn [List.length]. lia.
      * pose proof (utf8_bytes_length a) as (L1 & L2 & _).
        unfold code_unit in Ha. lia.
Qed.

(** X4. The length of a reference: four characters for every three bytes
    of the query's UTF-8 form, rounded up and without padding; so a
    reference is empty only for the empty query, and has at most four
    characters for each code unit of the query. *)
Theorem b64enc_length (s : jsstring) :
  Forall code_unit s ->
  Z.of_nat (List.length (b64enc s)) =
    (4 * Z.of_nat (List.length (from_utf8 s)) + 2) / 3 /\
  (s <> [] -> b64enc s <> []) /\
  (List.length (b64enc s) <= 4 * List.length s)%nat.
Proof.
  intros Hs. pose proof (from_utf8_length s Hs) as Hlen.
  pose proof (toString_base64url_length (from_utf8 s)) as Henc.
  fold (b64enc s) in Henc.
  split; [ exact Henc | split ].
  - intros Hne Hnil. rewrite Hnil in Henc. cbn [List.length] in Henc.
    destruct s as [| c s]; [ congruence | ]. cbn [List.length] in Hlen.
    revert Henc. Z.div_mod_to_equations. lia.
  - apply Nat2Z.inj_le. rewrite Henc. Z.div_mod_to_equations. lia.
Qed.

Lemma b64enc_length_witness :
  (List.length (b64enc Sample.greeting) <= 4 * List.length Sample.greeting)%nat.
Proof.
  apply (b64enc_length Sample.greeting).
  unfold code_unit. repeat constructor; lia.
Defined.

(** Decoding stops at the first ['=']. *)
Lemma sextets_stop (s t : jsstring) : sextets (s ++ 61 :: t) = sextets s.
Proof.
  induction s as [| c s IH]; [ reflexivity | ].
  cbn [app sextets]. rewrite IH. reflexivity.
Qed.

Lemma unbase64_standard (c : Z) : unbase64 (standard_char c) = unbase64 c.
Proof.
  unfold standard_char.
  destruct (Z.eqb_spec c 45) as [-> | _]; [ reflexivity | ].
  destruct (Z.eqb_spec c 95) as [-> | _]; reflexivity.
Qed.

Lemma sextets_standard (s : jsstring) : sextets (map standard_char s) = sextets s.
Proof.
  induction s as [| c s IH]; [ reflexivity | ].
  cbn [map sextets]. rewrite unbase64_standard, IH.
  destruct (unbase64 c); [ reflexivity | ].
  unfold standard_char.
  destruct (Z.eqb_spec c 45) as [-> | _]; [ reflexivity | ].
  destruct (Z.eqb_spec c 95) as [-> | _]; reflexivity.
Qed.

(** X5. Lenient decoding: [b64dec] reads a reference up to its first
    ['='] and ignores what follows, and it reads the standard base64
    alphabet (['+'] and ['/']) like the URL-safe one; so a padded reference
    and a reference in the standard alphabet decode to the same query. *)
Theorem b64dec_lenient (s t : jsstring) :
  b64dec (s ++ str "=" ++ t) = b64dec s /\
  b64dec (map standard_char s) = b64dec s.
Proof.
  unfold b64dec, from_base64url. split.
  - change (str "=" ++ t) with (61 :: t). rewrite sextets_stop. reflexivity.
  - rewrite sextets_standard. reflexivity.
Qed.

End References.

Lemma b64enc_injective_witness :
  well_formed (str "cats") /\ str "cats" = str "cats".
Proof.
  assert (Hq : well_formed (str "cats")).
  { cbn. unfold code_unit. repeat split; lia. }
  split; [ exact Hq | ].
  apply (b64enc_injective (str "cats") (str "cats") Hq Hq). reflexivity.
Defined.

(* ===================================================================== *)
(** ** More about the gateway *)
(* ===================================================================== *)

Section GatewayMore.

Variable env : environment.
Variable up : upstream.

Lemma target_system_not_default (t : Z) : target_system t <> default_system.
Proof. unfold target_system, default_system. cbn. discriminate. Qed.

(** The targets the chain of lines 22-26 can give. *)
Lemma target_of_cases (o : options) (t : Z) :
  target_of o = Some t ->
  truthy_str (style o) = true /\
  (t = Z.max 60 (minWords_or_0 o) \/ t = Z.max 160 (minWords_or_0 o) \/
   t = Z.max 300 (minWords_or_0 o)).
Proof.
  unfold target_of. destruct (style o) as [s | ]; [ | discriminate ].
  destruct (eqb_str s (str "short")) eqn:E1.
  { apply eqb_str_eq in E1. subst s. intros H. inversion H. auto. }
  destruct (eqb_str s (str "medium")) eqn:E2.
  { apply eqb_str_eq in E2. subst s. intros H. inversion H. auto. }
  destruct (eqb_str s (str "long")) eqn:E3; [ | discriminate ].
  apply eqb_str_eq in E3. subst s. intros H. inversion H. auto.
Qed.

(** The instruction is decided by the style alone: with a style of
    [short], [medium] or [long] the gateway asks for a target that is the
    larger of the style's floor (60, 160, 300) and [minWords], hence never
    below 60 nor below [minWords]; with any other style, or none, it sends
    the default instruction, whatever [minWords] is.  The two instructions
    differ, so the default one is sent exactly when no target is resolved. *)
Theorem system_of_by_style (o : options) :
  (forall t, target_of o = Some t ->
     system_of o = target_system t /\ 60 <= t /\ minWords_or_0 o <= t) /\
  (target_of o = None -> system_of o = default_system) /\
  (system_of o = default_system <-> target_of o = None).
Proof.
  assert (Hsome : forall t, target_of o = Some t ->
     system_of o = target_system t /\ 60 <= t /\ minWords_or_0 o <= t).
  { intros t Ht. destruct (target_of_cases o t Ht) as [Hs Hc].
    unfold system_of. rewrite Ht, Hs. cbn [orb].
    destruct (Z.eqb_spec t 0); [ lia | ]. split; [ reflexivity | lia ]. }
  assert (Hnone : target_of o = None -> system_of o = default_system).
  { intros Hn. unfold system_of. rewrite Hn.
    destruct (truthy_str _ || truthy_num _); reflexivity. }
  split; [ exact Hsome | split; [ exact Hnone | split; [ | exact Hnone ] ] ].
  intros Hd. destruct (target_of o) as [t | ] eqn:Ht; [ | reflexivity ].
  destruct (Hsome t eq_refl) as [Hsys _]. rewrite Hsys in Hd.
  exfalso. exact (target_system_not_default t Hd).
Qed.

(** The number in the instruction is written as JavaScript writes it. *)
Example Number_toString_forms :
  Number_toString 500 = str "500" /\
  Number_toString (2 ^ 60) = str "1152921504606847000" /\
  Number_toString (10 ^ 21) = str "1e+21" /\
  Number_toString (2 ^ 70) = str "1.1805916207174113e+21".
Proof. vm_compute. repeat split. Qed.

(** X7. The instruction per style: with style [short], [medium] or [long]
    the gateway sends the instruction that asks for around [t] words, [t]
    being the larger of the style's floor (60, 160, 300 in this order) and
    [minWords ?? 0], written as JavaScript writes the number; with any
    other style, or none, it sends the default instruction, whatever
    [minWords] is.  The two instructions are never the same text. *)
Theorem instruction_per_style (o : options) :
  let floor_or_min f := Z.max f (match minWords o with Some n => n | None => 0 end) in
  let around t :=
    str "You are a meticulous research assistant. Write around " ++
    Number_toString t ++
    str " words if appropriate, but do NOT pad or fabricate when the question is simple. Prefer precision over verbosity." in
  (style o = Some (str "short") -> system_of o = around (floor_or_min 60)) /\
  (style o = Some (str "medium") -> system_of o = around (floor_or_min 160)) /\
  (style o = Some (str "long") -> system_of o = around (floor_or_min 300)) /\
  (style o <> Some (str "short") -> style o <> Some (str "medium") ->
   style o <> Some (str "long") ->
   system_of o = str "Answer helpfully and accurately.") /\
  (forall t, around t <> str "Answer helpfully and accurately.").
Proof.
  cbv zeta. destruct o as [st mw]. cbn [style minWords].
  split; [ | split; [ | split; [ | split ] ] ].
  - intros ->. rewrite system_of_short. reflexivity.
  - intros ->. rewrite system_of_medium. reflexivity.
  - intros ->. rewrite system_of_long. reflexivity.
  - intros H1 H2 H3.
    destruct (system_of_by_style {| style := st; minWords := mw |})
      as (_ & Hnone & _).
    apply Hnone. unfold target_of. cbn [style].
    destruct st as [s | ]; [ | reflexivity ].
    rewrite !eqb_str_neq by congruence. reflexivity.
  - intros t. cbn. discriminate.
Qed.

(** The requests of the handlers are those of the gateway. *)
Lemma answer_tool_sent (q : jsstring) (st : option jsstring) (mw : option Z) :
  snd (answer_tool env q st mw up) =
  snd (askPerplexity env q {| style := st; minWords := mw |} up).
Proof.
  rewrite answer_tool_unfold.
  destruct (askPerplexity env q _ up) as [[e | a] sent]; [ reflexivity | ].
  destruct (raw_payload a); reflexivity.
Qed.

Lemma fetch_tool_sent (id : jsstring) :
  snd (fetch_tool env id up) = snd (askPerplexity env (b64dec id) no_options up).
Proof.
  rewrite fetch_tool_unfold.
  destruct (askPerplexity env (b64dec id) no_options up) as [[e | a] sent];
    [ reflexivity | ].
  destruct (Uri.encodeURIComponent (b64dec id)); reflexivity.
Qed.

Lemma run_handler_sent (h : Net tool_result) :
  snd (run_handler h up) = snd (h up).
Proof. unfold run_handler. destruct (h up) as [[e | r] sent]; reflexivity. Qed.

Lemma askPerplexity_sent (q : jsstring) (o : options) (rq : request) :
  In rq (snd (askPerplexity env q o up)) ->
  exists k,
    PERPLEXITY_API_KEY env = Some k /\ k <> [] /\
    rq = chat_request env (system_of o) q /\
    snd (askPerplexity env q o up) = [rq] /\
    req_headers rq = [(str "Authorization", str "Bearer " ++ k);
                      (str "Content-Type", str "application/json")].
Proof.
  destruct (truthy_str (PERPLEXITY_API_KEY env)) eqn:Hkey.
  - rewrite askPerplexity_configured by exact Hkey. cbv zeta. cbn [snd In].
    intros [<- | []].
    destruct (PERPLEXITY_API_KEY env) as [[| c k] | ] eqn:Hk; try discriminate.
    exists (c :: k). repeat split; try discriminate.
    unfold chat_request, PPLX_API_KEY. cbn [req_headers]. rewrite Hk. reflexivity.
  - rewrite askPerplexity_unconfigured by exact Hkey. intros [].
Qed.

(** X8. What leaves the process: a tool call sends at most one request;
    a request is sent only when the credential is configured, and it is a
    POST to the fixed completions URL that carries the credential as bearer
    token and a JSON body. *)
Theorem call_tool_requests (t : tool) (args : jsval) (rq : request) :
  In rq (snd (call_tool env t args up)) ->
  snd (call_tool env t args up) = [rq] /\
  req_url rq = str "https://api.perplexity.ai/chat/completions" /\
  req_method rq = str "POST" /\
  exists k,
    PERPLEXITY_API_KEY env = Some k /\ k <> [] /\
    req_headers rq = [(str "Authorization", str "Bearer " ++ k);
                      (str "Content-Type", str "application/json")].
Proof.
  assert (Hask : forall q o,
    In rq (snd (askPerplexity env q o up)) ->
    snd (askPerplexity env q o up) = [rq] /\
    req_url rq = str "https://api.perplexity.ai/chat/completions" /\
    req_method rq = str "POST" /\
    exists k,
      PERPLEXITY_API_KEY env = Some k /\ k <> [] /\
      req_headers rq = [(str "Authorization", str "Bearer " ++ k);
                        (str "Content-Type", str "application/json")]).
  { intros q o Hin.
    destruct (askPerplexity_sent q o rq Hin) as (k & Hk & Hne & Hrq & Hs & Hh).
    split; [ exact Hs | ]. rewrite Hrq at 1 2.
    split; [ reflexivity | split; [ reflexivity | ] ]. eauto. }
  unfold call_tool. destruct t.
  - destruct (answer_schema args) as [a | ]; [ | intros [] ].
    rewrite run_handler_sent, answer_tool_sent. apply Hask.
  - destruct (search_schema args) as [q | ]; [ | intros [] ].
    rewrite run_handler_sent, search_tool_offline. intros [].
  - destruct (fetch_schema args) as [i | ]; [ | intros [] ].
    rewrite run_handler_sent, fetch_tool_sent. apply Hask.
Qed.

(** X9. Network failure: when the call of the upstream API itself is
    rejected, the gateway fails with that error after the one attempt, and
    so do the [answer] and the [fetch] tool. *)
Theorem network_failure (q : jsstring) (o : options) (e : js_error) :
  truthy_str (PERPLEXITY_API_KEY env) = true ->
  up (chat_request env (system_of o) q) = inl e ->
  askPerplexity env q o up = (inl e, [chat_request env (system_of o) q]) /\
  answer_tool env q (style o) (minWords o) up =
    (inl e, [chat_request env (system_of o) q]) /\
  (forall id, b64dec id = q -> o = no_options ->
     fetch_tool env id up = (inl e, [chat_request env (system_of o) q])).
Proof.
  intros Hkey Hup.
  assert (Hask : askPerplexity env q o up =
                 (inl e, [chat_request env (system_of o) q])).
  { rewrite askPerplexity_configured by exact Hkey. cbv zeta. rewrite Hup.
    reflexivity. }
  split; [ exact Hask | split ].
  - rewrite answer_tool_unfold. destruct o as [st mw]. cbn [style minWords].
    rewrite Hask. reflexivity.
  - intros id Hid Ho. subst q o. rewrite fetch_tool_unfold, Hask. reflexivity.
Qed.

Lemma coalesce_nullish (a b : jsval) :
  Json.nullish b = false -> Json.nullish (Json.coalesce a b) = false.
Proof.
  intros Hb. unfold Json.coalesce. destruct (Json.nullish a) eqn:Ha; assumption.
Qed.

Lemma serialize_defined (v : jsval) :
  Json.nullish v = false -> exists t, Json.serialize v = Some t.
Proof.
  destruct v as [ | | [ | ] | n | s | items | props ]; cbn [Json.nullish];
    try discriminate; intros _; cbn [Json.serialize]; eauto.
Qed.

(** X10. The answer text is always a value: whatever JSON the upstream
    sends, line 58 yields neither [null] nor [undefined], so the [text]
    member of a fetched document is always written. *)
Theorem full_of_defined (json : jsval) :
  Json.nullish (full_of json) = false /\
  exists t, Json.serialize (full_of json) = Some t.
Proof.
  assert (H : Json.nullish (full_of json) = false).
  { unfold full_of. apply coalesce_nullish. reflexivity. }
  split; [ exact H | apply serialize_defined; exact H ].
Qed.

(** X11. A fetch that the upstream answers always returns: with the
    credential configured, a reply in 200-299 and a JSON body, the [fetch]
    tool returns for every id string, valid reference or not: one text
    block, the JSON of the document with the id as given, the title and
    url made of the decoded query, the answer text and the metadata; and
    it has sent exactly one request, a POST whose user message is the
    decoded query and whose system message is the default instruction. *)
Theorem fetch_tool_returns (id k : jsstring) (res : response) (json : jsval) :
  PERPLEXITY_API_KEY env = Some k -> k <> [] ->
  up (chat_request env default_system (b64dec id)) = inr res ->
  ok res = true ->
  json_ res = inr json ->
  exists escaped,
    Uri.encodeURIComponent (b64dec id) = inr escaped /\
    fetch_tool env id up =
      (inr {| content :=
                [ {| type_ := str "text";
                     text :=
                       Json.stringify
                         (JObj [(str "id", JStr (id));
                            (str "title", JStr (str "Perplexity: " ++ b64dec id));
                            (str "text", full_of json);
                            (str "url", JStr (str "https://www.perplexity.ai/search?q=" ++ escaped));
                            (str "metadata",
                             JObj [(str "source", JStr (str "perplexity"));
                                   (str "model", JStr (PPLX_MODEL env))])]) |} ] |},
       [ {| req_url := str "https://api.perplexity.ai/chat/completions";
            req_method := str "POST";
            req_headers :=
              [(str "Authorization", str "Bearer " ++ k);
               (str "Content-Type", str "application/json")];
            req_body :=
              Json.stringify
                (JObj [(str "model", JStr (PPLX_MODEL env));
                       (str "messages",
                        JArr [JObj [(str "role", JStr (str "system"));
                                    (str "content", JStr (str "Answer helpfully and accurately."))];
                              JObj [(str "role", JStr (str "user"));
                                    (str "content", JStr (b64dec id))]]);
                       (str "temperature", JNum (NonInt (str "0.3")))]) |} ]).
Proof.
  intros Hk Hne Hup Hok Hjson.
  assert (Hkey : truthy_str (PERPLEXITY_API_KEY env) = true).
  { rewrite Hk. destruct k; [ congruence | reflexivity ]. }
  destruct (encodeURIComponent_returns (b64dec id) (b64dec_well_formed id))
    as [escaped He].
  exists escaped. split; [ exact He | ].
  rewrite fetch_tool_unfold, askPerplexity_configured by exact Hkey.
  cbv zeta. change (system_of no_options) with default_system.
  rewrite Hup, Hok, Hjson, He. cbn [full].
  unfold chat_request, PPLX_API_KEY. rewrite Hk. reflexivity.
Qed.

(** X12. Search, then fetch: for a well-formed query, with the credential
    configured and the upstream answering with a status in 200-299 and a
    JSON body, the id of the one entry that [search] returns leads [fetch]
    to send exactly one request whose user message is that query, and the
    fetched document carries the same [id], [title] and [url] as the
    search entry. *)
Theorem search_then_fetch (q k : jsstring) (res : response) (json : jsval) :
  well_formed q ->
  PERPLEXITY_API_KEY env = Some k -> k <> [] ->
  up (chat_request env default_system q) = inr res ->
  ok res = true ->
  json_ res = inr json ->
  exists id title url,
    id = b64enc q /\
    title = str "Perplexity: " ++ q /\
    search_tool q up =
      (inr {| content :=
                [ {| type_ := str "text";
                     text :=
                       Json.stringify
                         (JObj [(str "results",
                                 JArr [JObj [(str "id", JStr id);
                                             (str "title", JStr title);
                                             (str "url", JStr url)]])]) |} ] |},
       []) /\
    fetch_tool env id up =
      (inr {| content :=
                [ {| type_ := str "text";
                     text :=
                       Json.stringify
                         (JObj [(str "id", JStr id);
                                (str "title", JStr title);
                                (str "text", full_of json);
                                (str "url", JStr url);
                                (str "metadata",
                                 JObj [(str "source", JStr (str "perplexity"));
                                       (str "model", JStr (PPLX_MODEL env))])]) |} ] |},
       [ {| req_url := str "https://api.perplexity.ai/chat/completions";
            req_method := str "POST";
            req_headers :=
              [(str "Authorization", str "Bearer " ++ k);
               (str "Content-Type", str "application/json")];
            req_body :=
              Json.stringify
                (JObj [(str "model", JStr (PPLX_MODEL env));
                       (str "messages",
                        JArr [JObj [(str "role", JStr (str "system"));
                                    (str "content", JStr (str "Answer helpfully and accurately."))];
                              JObj [(str "role", JStr (str "user"));
                                    (str "content", JStr (q))]]);
                       (str "temperature", JNum (NonInt (str "0.3")))]) |} ]).
Proof.
  intros Hq Hk Hne Hup Hok Hjson.
  assert (Hkey : truthy_str (PERPLEXITY_API_KEY env) = true).
  { rewrite Hk. destruct k; [ congruence | reflexivity ]. }
  destruct (encodeURIComponent_returns q Hq) as [escaped He].
  exists (b64enc q), (str "Perplexity: " ++ q),
    (str "https://www.perplexity.ai/search?q=" ++ escaped).
  split; [ reflexivity | split; [ reflexivity | split ] ].
  - unfold search_tool, url_of, bind, log, ret, settle. rewrite He. reflexivity.
  - rewrite fetch_tool_unfold, b64dec_b64enc by exact Hq.
    rewrite askPerplexity_configured by exact Hkey.
    cbv zeta. change (system_of no_options) with default_system.
    rewrite Hup, Hok, Hjson, He. cbn [full].
    unfold chat_request, PPLX_API_KEY. rewrite Hk. reflexivity.
Qed.

(** The conversion of a string is the string. *)
Lemma toString_string (s : jsstring) : Json.toString (JStr s) = inr s.
Proof. reflexivity. Qed.

(** The conversion of an object that has a member named [toString] throws. *)
Lemma toString_shadowed (props : list (jsstring * jsval)) :
  Json.has_key (str "toString") props = true ->
  Json.toString (JObj props) = inl Json.TypeError.
Proof. intros H. cbn [Json.toString]. rewrite H. reflexivity. Qed.

(** X13. What the [answer] tool returns: after a reply in 200-299 with a
    JSON body to its one request, the tool converts the answer to a
    string; when that succeeds (for an answer that is a string it gives
    the string itself, unescaped) the result is one text block: the start
    marker, the answer, the end marker, an empty line and the [[meta]]
    line with the upstream model and usage as JSON.  When the conversion
    throws, as for an answer that is an object with a member named
    [toString], the tool fails with that [TypeError], after the request. *)
Theorem answer_tool_after_reply (q : jsstring) (st : option jsstring)
    (mw : option Z) (res : response) (json : jsval) :
  truthy_str (PERPLEXITY_API_KEY env) = true ->
  up (chat_request env (system_of {| style := st; minWords := mw |}) q) = inr res ->
  ok res = true ->
  json_ res = inr json ->
  let sent := [chat_request env (system_of {| style := st; minWords := mw |}) q] in
  (forall t, Json.toString (full_of json) = inr t ->
     answer_tool env q st mw up =
       (inr {| content :=
                 [ {| type_ := str "text";
                      text := str "<<<PPLX_RAW>>>" ++ [10] ++
                              t ++ [10] ++
                              str "<<<END_PPLX_RAW>>>" ++ [10] ++ [10] ++
                              str "[meta] " ++
                              Json.stringify
                                (JObj [(str "model", Json.opt_member json (str "model"));
                                       (str "usage", Json.opt_member json (str "usage"))]) |} ] |},
        sent)) /\
  (forall s, full_of json = JStr s -> Json.toString (full_of json) = inr s) /\
  (forall e, Json.toString (full_of json) = inl e ->
     answer_tool env q st mw up = (inl e, sent)) /\
  (forall props, full_of json = JObj props ->
     Json.has_key (str "toString") props = true ->
     answer_tool env q st mw up =
       (inl {| name := str "TypeError";
               message := str "Cannot convert object to primitive value" |}, sent)).
Proof.
  intros Hkey Hup Hok Hjson sent.
  assert (Hrun : answer_tool env q st mw up =
    match Json.toString (full_of json) with
    | inl e => (inl e, sent)
    | inr t =>
        (inr (text_result
                (str "<<<PPLX_RAW>>>" ++ LF ++ t ++ LF ++
                 str "<<<END_PPLX_RAW>>>" ++ LF ++ LF ++
                 str "[meta] " ++ Json.stringify (meta_of json))), sent)
    end).
  { rewrite answer_tool_unfold, askPerplexity_configured by exact Hkey.
    cbv zeta. rewrite Hup, Hok, Hjson. unfold raw_payload. cbn [full meta].
    destruct (Json.toString (full_of json)); reflexivity. }
  split; [ | split; [ | split ] ].
  - intros t Ht. rewrite Hrun, Ht. reflexivity.
  - intros s Hs. rewrite Hs. apply toString_string.
  - intros e He. rewrite Hrun, He. reflexivity.
  - intros props Hp Hs. rewrite Hrun, Hp, toString_shadowed by exact Hs.
    reflexivity.
Qed.

End GatewayMore.

(* ===================================================================== *)
(** ** More about the tools *)
(* ===================================================================== *)

Section ToolsMore.

Variable up : upstream.

Lemma surrogate_reserved (c : Z) :
  is_high_surrogate c = true \/ is_low_surrogate c = true ->
  Uri.unreserved c = false.
Proof.
  intros H. destruct (Uri.unreserved c) eqn:Hu; [ | reflexivity ].
  apply unreserved_ascii in Hu.
  unfold is_high_surrogate, is_low_surrogate in H. lia.
Qed.

Lemma encodeURIComponent_cons (c : Z) (s : jsstring) :
  Uri.encodeURIComponent (c :: s) =
  if Uri.unreserved c then
    match Uri.encodeURIComponent s with
    | inr t => inr (c :: t)
    | inl e => inl e
    end
  else if is_low_surrogate c then inl Uri.URIError
  else if is_high_surrogate c then
    match s with
    | d :: s'' =>
        if is_low_surrogate d then
          match Uri.encodeURIComponent s'' with
          | inr t =>
              inr (flat_map Uri.percent
                     (Buffer.utf8_bytes (Buffer.pair_code_point c d)) ++ t)
          | inl e => inl e
          end
        else inl Uri.URIError
    | [] => inl Uri.URIError
    end
  else
    match Uri.encodeURIComponent s with
    | inr t => inr (flat_map Uri.percent (Buffer.utf8_bytes c) ++ t)
    | inl e => inl e
    end.
Proof. reflexivity. Qed.

(** [encodeURIComponent] throws exactly on the strings that are not well
    formed, and what it throws is [URIError]. *)
Lemma encodeURIComponent_cases (s : jsstring) :
  Forall code_unit s ->
  (well_formed s /\ exists t, Uri.encodeURIComponent s = inr t) \/
  (~ well_formed s /\ Uri.encodeURIComponent s = inl Uri.URIError).
Proof.
  assert (Hunit : forall a s,
    code_unit a -> is_high_surrogate a = false -> is_low_surrogate a = false ->
    ((well_formed s /\ exists t, Uri.encodeURIComponent s = inr t) \/
     (~ well_formed s /\ Uri.encodeURIComponent s = inl Uri.URIError)) ->
    (well_formed (a :: s) /\ exists t, Uri.encodeURIComponent (a :: s) = inr t) \/
    (~ well_formed (a :: s) /\ Uri.encodeURIComponent (a :: s) = inl Uri.URIError)).
  { intros a s0 Ha Hh Hl [[Hw [t Ht]] | [Hw He]].
    - left. split; [ apply well_formed_cons_unit; assumption | ].
      rewrite encodeURIComponent_cons, Ht, Hh, Hl.
      destruct (Uri.unreserved a); eauto.
    - right. split.
      + cbn [well_formed]. rewrite Hh. tauto.
      + rewrite encodeURIComponent_cons, He, Hh, Hl.
        destruct (Uri.unreserved a); reflexivity. }
  induction s as [| a | a b l IHl IHbl] using list_ind2; intros H.
  - left. split; [ exact I | exists []; reflexivity ].
  - apply code_unit_tail in H as [Ha _].
    destruct (is_high_surrogate a) eqn:Hh.
    { right. split.
      - cbn [well_formed]. rewrite Hh. tauto.
      - rewrite encodeURIComponent_cons, surrogate_reserved, Hh by auto.
        destruct (is_low_surrogate a); reflexivity. }
    destruct (is_low_surrogate a) eqn:Hl.
    { right. split.
      - cbn [well_formed]. rewrite Hh. intros (_ & D & _). congruence.
      - rewrite encodeURIComponent_cons, surrogate_reserved, Hl by auto.
        reflexivity. }
    apply Hunit; try assumption.
    left. split; [ exact I | exists []; reflexivity ].
  - apply code_unit_tail in H as [Ha H]. pose proof H as Hbl.
    apply code_unit_tail in H as [Hb Hl].
    specialize (IHl Hl). specialize (IHbl Hbl).
    destruct (is_high_surrogate a) eqn:Hh.
    { assert (Hal : is_low_surrogate a = false).
      { apply high_surrogate_range in Hh. unfold is_low_surrogate. lia. }
      destruct (is_low_surrogate b) eqn:Hlb.
      - destruct IHl as [[Hw [t Ht]] | [Hw He]].
        + left. split; [ apply well_formed_cons_pair; assumption | ].
          rewrite encodeURIComponent_cons, surrogate_reserved, Hal, Hh, Hlb, Ht
            by auto.
          eauto.
        + right. split.
          * cbn [well_formed]. rewrite Hh. tauto.
          * rewrite encodeURIComponent_cons, surrogate_reserved, Hal, Hh, Hlb, He
              by auto.
            reflexivity.
      - right. split.
        + cbn [well_formed]. rewrite Hh. intros (_ & D & _). congruence.
        + rewrite encodeURIComponent_cons, surrogate_reserved, Hal, Hh, Hlb
            by auto.
          reflexivity. }
    destruct (is_low_surrogate a) eqn:Hla.
    { right. split.
      - cbn [well_formed]. rewrite Hh. intros (_ & D & _). congruence.
      - rewrite encodeURIComponent_cons, surrogate_reserved, Hla by auto.
        reflexivity. }
    apply Hunit; assumption.
Qed.

(** X14. When [search] fails: the tool returns for every well-formed
    query, and fails with [URIError] for every query with a lone surrogate,
    which [encodeURIComponent] refuses; in neither case is a request sent. *)
Theorem search_tool_outcome (q : jsstring) :
  Forall code_unit q ->
  (well_formed q /\ exists r, search_tool q up = (inr r, [])) \/
  (~ well_formed q /\ search_tool q up = (inl Uri.URIError, [])).
Proof.
  intros Hq. unfold search_tool, url_of, bind, log, ret, settle.
  destruct (encodeURIComponent_cases q Hq) as [[Hw [t Ht]] | [Hw He]].
  - left. split; [ exact Hw | ]. rewrite Ht. eauto.
  - right. split; [ exact Hw | ]. rewrite He. reflexivity.
Qed.

Lemma optional_some (A : Type) (schema : jsval -> option A) (v : jsval)
    (o : option A) :
  Zod.optional schema v = Some o ->
  v = JUndefined /\ o = None \/ exists a, schema v = Some a /\ o = Some a.
Proof.
  unfold Zod.optional. destruct v; try (intros H; inversion H; auto; fail);
    destruct (schema _) as [a | ]; intros H; inversion H; eauto.
Qed.

Lemma enum_some (values : list jsstring) (v : jsval) (s : jsstring) :
  Zod.enum values v = Some s -> v = JStr s /\ In s values.
Proof.
  unfold Zod.enum. destruct v; try discriminate.
  destruct (existsb (eqb_str s0) values) eqn:He; [ | discriminate ].
  intros H. inversion H; subst. split; [ reflexivity | ].
  apply existsb_exists in He as (x & Hx & Heq).
  apply eqb_str_eq in Heq. subst x. exact Hx.
Qed.

Lemma number_int_positive_some (v : jsval) (n : Z) :
  Zod.number_int_positive v = Some n -> v = JNum (Int n) /\ 0 < n.
Proof.
  unfold Zod.number_int_positive. destruct v as [ | | | [m | r] | | | ];
    try discriminate.
  destruct (Z.ltb_spec 0 m) as [Hpos | Hpos]; [ | discriminate ].
  intros Hn. inversion Hn; subst. auto.
Qed.

(** X15. What the handler of [answer] is given: when the schema accepts
    the arguments, the handler receives the [query] string as it was sent,
    a [style] that is absent or one of [short], [medium], [long], and a
    [min_words] that is absent or a positive integer. *)
Theorem answer_schema_sound (props : list (jsstring * jsval)) (a : answer_args) :
  answer_schema (JObj props) = Some a ->
  Json.lookup (str "query") props = JStr (arg_query a) /\
  (Json.lookup (str "style") props = JUndefined /\ arg_style a = None \/
   exists s, Json.lookup (str "style") props = JStr s /\ arg_style a = Some s /\
             (s = str "short" \/ s = str "medium" \/ s = str "long")) /\
  (Json.lookup (str "min_words") props = JUndefined /\ arg_min_words a = None \/
   exists n, Json.lookup (str "min_words") props = JNum (Int n) /\
             arg_min_words a = Some n /\ 0 < n).
Proof.
  unfold answer_schema. cbn [Zod.field].
  destruct (Zod.string_ _) as [q | ] eqn:Hq; [ | discriminate ].
  destruct (Zod.optional (Zod.enum _) _) as [st | ] eqn:Hst; [ | discriminate ].
  destruct (Zod.optional Zod.number_int_positive _) as [mw | ] eqn:Hmw;
    [ | discriminate ].
  intros H. inversion H; subst. cbn [arg_query arg_style arg_min_words].
  split; [ | split ].
  - destruct (Json.lookup (str "query") props); try discriminate.
    inversion Hq. reflexivity.
  - apply optional_some in Hst as [[Hu Hn] | (s & Hs & Ho)]; [ auto | ].
    right. exists s. apply enum_some in Hs as [Hv Hin].
    split; [ exact Hv | split; [ exact Ho | ] ].
    cbn [In] in Hin. intuition auto.
  - apply optional_some in Hmw as [[Hu Hn] | (n & Hs & Ho)]; [ auto | ].
    right. exists n. apply number_int_positive_some in Hs as [Hv Hpos]. auto.
Qed.

End ToolsMore.

(* ===================================================================== *)
(** ** The protocol endpoint *)
(* ===================================================================== *)

Section Endpoint.

Import Http.

Lemma step_before (a b c : step) (rest l1 l2 : list step) :
  a <> Connect -> b <> Connect ->
  [a; b; c] ++ rest = l1 ++ Connect :: l2 -> c = Connect \/ In c l1.
Proof.
  intros Ha Hb H.
  destruct l1 as [| x1 [| x2 [| x3 l1]]]; cbn in H; inversion H; subst;
    try congruence; auto.
  right. cbn. auto.
Qed.

(** X16. The internal-error reply: when a call of the [try] block of
    [POST /mcp] throws ([buildServer], the transport constructor, [res.on],
    [server.connect] or [transport.handleRequest]), the handler logs that
    error; if no header has been sent by then it replies with status 500
    and the JSON-RPC error of code -32603, and if the reply has already
    begun it leaves the response as it is.  [connect] is attempted only
    after the close listener has been registered. *)
Theorem post_mcp_internal_error (k : sdk) (res before : http_response)
    (err : js_error) :
  (buildServer k = inl err /\ before = res) \/
  (buildServer k = inr tt /\ newTransport k = inl err /\ before = res) \/
  (buildServer k = inr tt /\ newTransport k = inr tt /\ onClose k = inl err /\
   before = res) \/
  (buildServer k = inr tt /\ newTransport k = inr tt /\ onClose k = inr tt /\
   connect k = inl err /\ before = res) \/
  (buildServer k = inr tt /\ newTransport k = inr tt /\ onClose k = inr tt /\
   connect k = inr tt /\ handleRequest k res = (inl err, before)) ->
  In (ConsoleError err) (snd (post_mcp k res)) /\
  fst (post_mcp k res) =
    (if headersSent before then before
     else {| headersSent := true; statusCode := 500;
             body :=
               Some (Json.stringify
                       (JObj [(str "jsonrpc", JStr (str "2.0"));
                              (str "error",
                               JObj [(str "code", JNum (Int (-32603)));
                                     (str "message",
                                      JStr (str "Internal server error"))]);
                              (str "id", JNull)])) |}) /\
  (forall l1 l2, snd (post_mcp k res) = l1 ++ Connect :: l2 -> In OnClose l1).
Proof.
  unfold post_mcp, try_block, then_, call, handle, on_error.
  intros [(Hb & ->) | [(Hb & Ht & ->) | [(Hb & Ht & Ho & ->) |
          [(Hb & Ht & Ho & Hc & ->) | (Hb & Ht & Ho & Hc & Hh)]]]].
  - rewrite Hb. cbn -[Json.stringify In].
    split; [ cbn; auto | split ].
    + destruct (headersSent res); reflexivity.
    + intros l1 l2 H. exfalso.
      destruct l1 as [| x1 [| x2 l1]]; cbn in H; inversion H.
      destruct l1; discriminate.
  - rewrite Hb, Ht. cbn -[Json.stringify In].
    split; [ cbn; auto | split ].
    + destruct (headersSent res); reflexivity.
    + intros l1 l2 H. exfalso.
      destruct l1 as [| x1 [| x2 [| x3 l1]]]; cbn in H; inversion H.
      destruct l1; discriminate.
  - rewrite Hb, Ht, Ho. cbn -[Json.stringify In].
    split; [ cbn; auto | split ].
    + destruct (headersSent res); reflexivity.
    + intros l1 l2 H.
      destruct (step_before BuildServer NewTransport OnClose _ _ _
                  ltac:(discriminate) ltac:(discriminate) H)
        as [D | Hin]; [ discriminate | exact Hin ].
  - rewrite Hb, Ht, Ho, Hc. cbn -[Json.stringify In].
    split; [ cbn; auto 6 | split ].
    + destruct (headersSent res); reflexivity.
    + intros l1 l2 H.
      destruct (step_before BuildServer NewTransport OnClose _ _ _
                  ltac:(discriminate) ltac:(discriminate) H)
        as [D | Hin]; [ discriminate | exact Hin ].
  - rewrite Hb, Ht, Ho, Hc, Hh. cbn -[Json.stringify In].
    split; [ cbn; auto 7 | split ].
    + destruct (headersSent before); reflexivity.
    + intros l1 l2 H.
      destruct (step_before BuildServer NewTransport OnClose _ _ _
                  ltac:(discriminate) ltac:(discriminate) H)
        as [D | Hin]; [ discriminate | exact Hin ].
Qed.

(** When every call of the [try] block returns, the handler neither logs
    nor replies: the response is what [handleRequest] left. *)
Lemma post_mcp_served (k : sdk) (res after : http_response) :
  buildServer k = inr tt -> newTransport k = inr tt -> onClose k = inr tt ->
  connect k = inr tt -> handleRequest k res = (inr tt, after) ->
  post_mcp k res =
    (after, [BuildServer; NewTransport; OnClose; Connect; HandleRequest]).
Proof.
  intros Hb Ht Ho Hc Hh.
  unfold post_mcp, try_block, then_, call, handle.
  rewrite Hb, Ht, Ho, Hc, Hh. reflexivity.
Qed.

End Endpoint.

(* ===================================================================== *)
(** ** Sample runs *)
(* ===================================================================== *)

Lemma instruction_per_style_witness :
  system_of {| style := Some (str "long"); minWords := Some 500 |} =
  str "You are a meticulous research assistant. Write around 500 words if appropriate, but do NOT pad or fabricate when the question is simple. Prefer precision over verbosity.".
Proof.
  exact (proj1 (proj2 (proj2 (instruction_per_style
                                {| style := Some (str "long");
                                   minWords := Some 500 |})))
           eq_refl).
Defined.

Lemma call_tool_requests_witness :
  req_headers (chat_request Sample.configured default_system (str "cats")) =
  [(str "Authorization", str "Bearer pplx-key");
   (str "Content-Type", str "application/json")].
Proof.
  destruct (call_tool_requests Sample.configured (Sample.answering (str "ok"))
              fetch_ (JObj [(str "id", JStr (str "Y2F0cw"))])
              (chat_request Sample.configured default_system (str "cats")))
    as (_ & _ & _ & k & Hk & _ & Hh).
  { left. reflexivity. }
  inversion Hk; subst. exact Hh.
Defined.

Lemma network_failure_witness :
  fetch_tool Sample.configured (str "Y2F0cw") Fault.unreachable =
  (inl Fault.fetch_failed,
   [chat_request Sample.configured default_system (str "cats")]).
Proof.
  destruct (network_failure Sample.configured Fault.unreachable (str "cats")
              no_options Fault.fetch_failed eq_refl eq_refl) as (_ & _ & Hf).
  apply Hf; reflexivity.
Defined.

Lemma fetch_tool_returns_witness :
  exists r,
    fetch_tool Sample.configured Sample.malformed_reference
      (Sample.answering (str "ok")) =
    (inr r, [chat_request Sample.configured default_system
               (b64dec Sample.malformed_reference)]).
Proof.
  destruct (fetch_tool_returns Sample.configured (Sample.answering (str "ok"))
              Sample.malformed_reference (str "pplx-key")
              {| status := 200;
                 text_ := inr (Json.stringify (Sample.completion (str "ok")));
                 json_ := inr (Sample.completion (str "ok")) |}
              (Sample.completion (str "ok")) eq_refl
              ltac:(discriminate) eq_refl eq_refl eq_refl)
    as (escaped & _ & Hf).
  eexists. rewrite Hf. reflexivity.
Defined.

Lemma search_then_fetch_witness :
  snd (fetch_tool Sample.configured (b64enc Sample.greeting)
         (Sample.answering (str "ok"))) =
  [chat_request Sample.configured default_system Sample.greeting].
Proof.
  assert (Hq : well_formed Sample.greeting).
  { cbn. unfold code_unit. repeat split; lia. }
  destruct (search_then_fetch Sample.configured (Sample.answering (str "ok"))
              Sample.greeting (str "pplx-key")
              {| status := 200;
                 text_ := inr (Json.stringify (Sample.completion (str "ok")));
                 json_ := inr (Sample.completion (str "ok")) |}
              (Sample.completion (str "ok")) Hq eq_refl
              ltac:(discriminate) eq_refl eq_refl eq_refl)
    as (id & title & url & -> & _ & _ & Hf).
  rewrite Hf. reflexivity.
Defined.

Lemma answer_tool_after_reply_witness :
  answer_tool Sample.configured (str "x") None None Sample.shadowing =
  (inl {| name := str "TypeError";
          message := str "Cannot convert object to primitive value" |},
   [chat_request Sample.configured default_system (str "x")]).
Proof.
  destruct (answer_tool_after_reply Sample.configured Sample.shadowing (str "x")
              None None
              {| status := 200; text_ := inr [];
                 json_ := inr (JObj [(str "choices",
                                      JArr [JObj [(str "message",
                                                   JObj [(str "content",
                                                          JObj [(str "toString",
                                                                 JNull)])])]])]) |}
              (JObj [(str "choices",
                      JArr [JObj [(str "message",
                                   JObj [(str "content",
                                          JObj [(str "toString", JNull)])])]])])
              eq_refl eq_refl eq_refl eq_refl) as (_ & _ & _ & Hthrow).
  apply (Hthrow [(str "toString", JNull)]); reflexivity.
Defined.

Lemma search_tool_outcome_witness :
  search_tool [0x61; 0xDE00] (Sample.answering (str "ok")) =
  (inl Uri.URIError, []).
Proof.
  destruct (search_tool_outcome (Sample.answering (str "ok")) [0x61; 0xDE00])
    as [[Hw _] | [_ Hs]].
  - unfold code_unit. repeat constructor; lia.
  - exfalso. cbn in Hw. destruct Hw as (_ & _ & _ & Hw & _). discriminate.
  - exact Hs.
Defined.

Lemma answer_schema_sound_witness :
  exists a,
    answer_schema (JObj [(str "query", JStr (str "x"));
                         (str "style", JStr (str "long"));
                         (str "min_words", JNum (Int 500))]) = Some a /\
    arg_query a = str "x" /\ arg_style a = Some (str "long") /\
    arg_min_words a = Some 500.
Proof.
  eexists. split; [ reflexivity | ].
  destruct (answer_schema_sound
              [(str "query", JStr (str "x")); (str "style", JStr (str "long"));
               (str "min_words", JNum (Int 500))]
              {| arg_query := str "x"; arg_style := Some (str "long");
                 arg_min_words := Some 500 |} eq_refl) as (Hq & _ & _).
  repeat split.
Defined.

Lemma post_mcp_internal_error_witness :
  fst (Http.post_mcp Http.failing_connect Http.fresh) =
    {| Http.headersSent := true; Http.statusCode := 500;
       Http.body := Some (Json.stringify Http.internal_error) |} /\
  fst (Http.post_mcp Http.failing_stream Http.fresh) =
    {| Http.headersSent := true; Http.statusCode := 200;
       Http.body := Some (str "data: ") |}.
Proof.
  split.
  - destruct (post_mcp_internal_error Http.failing_connect Http.fresh Http.fresh
                (Error (str "connect failed"))) as (_ & Hr & _).
    { do 3 right. left. repeat split. }
    rewrite Hr. reflexivity.
  - destruct (post_mcp_internal_error Http.failing_stream Http.fresh
                {| Http.headersSent := true; Http.statusCode := 200;
                   Http.body := Some (str "data: ") |}
                (Error (str "stream broke"))) as (_ & Hr & _).
    { do 4 right. repeat split. }
    rewrite Hr. reflexivity.
Defined.
